(** * tree-cache: a persistent cache for a tree of attribute values

    Shallow embedding of [src/libexpr/tree-cache.{hh,cc}] (the variant with
    [FullAttrs] rows and placeholder children) and the properties of the
    value codec, of the durable store [AttrDb] and of the [Cursor]
    navigation API. *)

From Stdlib Require Import ZArith String Ascii List Lia Permutation.
From stdpp Require Import base option list strings.

Local Open Scope string_scope.
Local Open Scope Z_scope.

#[local] Arguments append : simpl nomatch.

(** ** Outcomes of a call

    A call of the C++ code either returns, or throws a C++ exception
    ([SQLiteError] from the SQLite wrapper, [Error] from [getAttr]), or
    kills the process: a failed [assert], or a member call through the
    null [db] pointer of a cache without a store.  A thrown exception keeps
    every side effect made before the throw, so the state is threaded
    through all four outcomes. *)

Inductive exn : Type :=
  | SQLiteError
  | Error (msg : string).

Inductive outcome (A : Type) : Type :=
  | Ret (a : A)
  | Raise (e : exn)
  | AssertFail
  | NullDeref.

Arguments Ret {A} a.
Arguments Raise {A} e.
Arguments AssertFail {A}.
Arguments NullDeref {A}.

Definition M (S A : Type) : Type := S -> outcome A * S.

Definition ret {S A} (a : A) : M S A := fun s => (Ret a, s).

Definition bind {S A B} (m : M S A) (k : A -> M S B) : M S B :=
  fun s =>
    match m s with
    | (Ret a, s') => k a s'
    | (Raise e, s') => (Raise e, s')
    | (AssertFail, s') => (AssertFail, s')
    | (NullDeref, s') => (NullDeref, s')
    end.

Definition throw {S A} (e : exn) : M S A := fun s => (Raise e, s).

Definition assert {S} (b : bool) : M S unit :=
  fun s => if b then (Ret tt, s) else (AssertFail, s).

Definition gets {S A} (f : S -> A) : M S A := fun s => (Ret (f s), s).

Definition modify {S} (f : S -> S) : M S unit := fun s => (Ret tt, f s).

Declare Scope cache_scope.
Delimit Scope cache_scope with cache.
Notation "x <- m ;; k" := (bind m (fun x => k))
  (at level 100, m at next level, right associativity) : cache_scope.
Notation "m ;;; k" := (bind m (fun _ => k))
  (at level 100, right associativity) : cache_scope.
Local Open Scope cache_scope.

(** ** Data model ([tree-cache.hh]) *)

(** [Symbol]: an interned string.  [SymbolTable::create] maps equal texts
    to the same symbol, so a symbol is modelled by its text. *)
Abbreviation Symbol := string (only parsing).
Abbreviation Path := string (only parsing).

Module SymbolTable.
Definition create (s : string) : Symbol := s.
End SymbolTable.

(** [enum AttrType] with the enumerators' values. *)
Module AttrType.
Inductive t : Type :=
  | Placeholder
  | FullAttrs
  | String
  | Missing
  | Misc
  | Failed
  | Bool.

Definition to_Z (x : t) : Z :=
  match x with
  | Placeholder => 0
  | FullAttrs => 1
  | String => 2
  | Missing => 3
  | Misc => 4
  | Failed => 5
  | Bool => 6
  end.
End AttrType.

(** [typedef uint64_t AttrId]; [typedef std::pair<AttrId, Symbol> AttrKey]. *)
Abbreviation AttrId := Z (only parsing).
Abbreviation AttrKey := (Z * string)%type (only parsing).

(** [string_t]: the text and its context, a vector of pairs. *)
Abbreviation Context := (list (string * string)) (only parsing).

(** [AttrValue], the variant; its alternatives are [std::vector<Symbol>]
    (the names of an attribute set), [string_t], the four tag types, and
    [bool]. *)
Inductive AttrValue : Type :=
  | attrs_v (names : list Symbol)
  | string_t (s : string) (context : Context)
  | placeholder_t
  | missing_t
  | misc_t
  | failed_t
  | bool_v (b : bool).

Record RawValue : Type := mkRawValue {
  type : AttrType.t;
  value : option string;
  context : Context;
}.

(** ** String helpers of the C++ standard library *)

(** [std::string::pop_back]: drops the last character. *)
Fixpoint pop_back (s : string) : string :=
  match s with
  | EmptyString => EmptyString
  | String c EmptyString => EmptyString
  | String c rest => String c (pop_back rest)
  end.

Definition string_empty (s : string) : bool :=
  match s with
  | EmptyString => true
  | String _ _ => false
  end.

Fixpoint string_mem (c : ascii) (s : string) : bool :=
  match s with
  | EmptyString => false
  | String d rest => if Ascii.eqb c d then true else string_mem c rest
  end.

(** Modelled from the spec: [tokenizeString] of libutil is not among the
    sources; the provenance text is a sequence of tokens delimited by a
    delimiter character.  [separators] is the set of delimiter characters;
    the tokens are the maximal runs of other characters, in order, and an
    empty run makes no token. *)
Fixpoint tokenize_from (separators : string) (tok : string) (s : string)
  : list string :=
  match s with
  | EmptyString => if string_empty tok then [] else [tok]
  | String c rest =>
      if string_mem c separators then
        if string_empty tok then tokenize_from separators EmptyString rest
        else tok :: tokenize_from separators EmptyString rest
      else tokenize_from separators (tok ++ String c EmptyString) rest
  end.

Definition tokenizeString (s : string) (separators : string) : list string :=
  tokenize_from separators EmptyString s.

(** Modelled from the spec: [encodeContext] and [decodeContext] are declared
    in context.hh, which is not among the sources.  Each entry encodes as
    "<descriptor>:<locator>"; decoding cuts the text at its first colon. *)
Definition encodeContext (descriptor : string) (locator : string) : string :=
  descriptor ++ ":" ++ locator.

Fixpoint split_colon (pre : string) (s : string) : string * string :=
  match s with
  | EmptyString => (pre, EmptyString)
  | String c rest =>
      if Ascii.eqb c ":"%char then (pre, rest)
      else split_colon (pre ++ String c EmptyString) rest
  end.

Definition decodeContext (s : string) : Path * string :=
  split_colon EmptyString s.

(** ** The variant codec ([RawValue]) *)

(** [RawValue::fromVariant]. *)
Definition fromVariant (v : AttrValue) : RawValue :=
  match v with
  | attrs_v _ => mkRawValue AttrType.FullAttrs None []
  | placeholder_t => mkRawValue AttrType.Placeholder None []
  | missing_t => mkRawValue AttrType.Missing None []
  | misc_t => mkRawValue AttrType.Misc None []
  | failed_t => mkRawValue AttrType.Failed None []
  | string_t s ctx => mkRawValue AttrType.String (Some s) ctx
  | bool_v x => mkRawValue AttrType.Bool (Some (if x then "0" else "1")) []
  end.

(** [RawValue::serializeContext]: the loop appends each encoded entry
    followed by one space; the trailing space is removed at the end. *)
Definition serializeContext_loop (ctx : Context) : string :=
  fold_left
    (fun res elt => (res ++ encodeContext (fst elt) (snd elt)) ++ " ")
    ctx EmptyString.

Definition serializeContext (r : RawValue) : string :=
  let res := serializeContext_loop (context r) in
  if negb (string_empty res) then pop_back res else res.

(** ** The SQLite connection

    The table [Attributes] of the schema:
    [id integer primary key autoincrement not null, parent integer not null,
     name text, type integer not null, value text, context text,
     unique (parent, name)]. *)

Module Attributes.
Record Row : Type := mkRow {
  id : Z;
  parent : Z;
  name : string;
  type : Z;
  value : option string;      (* [None] is SQL NULL *)
  context : option string;
}.
End Attributes.

(** The statements run on the connection, as they are prepared in the
    constructor of [AttrDb] and bound at their uses. *)
Inductive Stmt : Type :=
  | insertAttribute (parent : Z) (name : string) (type : Z)
      (value : option string)
  | insertAttributeWithContext (parent : Z) (name : string) (type : Z)
      (value : option string) (context : string)
  | queryAttribute (parent : Z) (name : string)
  | queryAttributes (parent : Z).

(** [SQLite]: the rows of the table in insertion order, the autoincrement
    sequence (the largest rowid given out so far), the rowid of the last
    successful insert, the rows as of the last commit, and the trace of
    the statements executed so far. *)
Record SQLite : Type := mkSQLite {
  table : list Attributes.Row;
  seq : Z;
  lastInsertedRowId : Z;
  durable : list Attributes.Row;
  trace : list Stmt;
}.

Record SQLiteTxn : Type := mkSQLiteTxn { active : bool }.

(** [AttrDb::State] (the prepared statements are the constructors of
    [Stmt]). *)
Record State : Type := mkState {
  db : SQLite;
  txn : option SQLiteTxn;
}.

Definition on_db {A} (m : M SQLite A) : M State A :=
  fun st => let (r, c) := m (db st) in (r, mkState c (txn st)).

Definition same_key (parent : Z) (name : string) (r : Attributes.Row) : bool :=
  Z.eqb (Attributes.parent r) parent && String.eqb (Attributes.name r) name.

Definition log (s : Stmt) (c : SQLite) : SQLite :=
  mkSQLite (table c) (seq c) (lastInsertedRowId c) (durable c) (trace c ++ [s]).

(** Executing an insert: the unique constraint on (parent, name) rejects a
    second row of the same key with an [SQLiteError], and the table is left
    as it was; otherwise the row gets the next rowid. *)
Definition exec_insert (s : Stmt) (parent : Z) (name : string) (type : Z)
    (value context : option string) : M SQLite unit :=
  fun c =>
    let c := log s c in
    if existsb (same_key parent name) (table c) then (Raise SQLiteError, c)
    else
      let rowId := seq c + 1 in
      (Ret tt,
       mkSQLite
         (table c ++ [Attributes.mkRow rowId parent name type value context])
         rowId rowId (durable c) (trace c)).

Definition insertAttribute_exec (parent : Z) (name : string) (type : Z)
    (value : option string) : M SQLite unit :=
  exec_insert (insertAttribute parent name type value)
    parent name type value None.

Definition insertAttributeWithContext_exec (parent : Z) (name : string)
    (type : Z) (value : option string) (context : string) : M SQLite unit :=
  exec_insert (insertAttributeWithContext parent name type value context)
    parent name type value (Some context).

Definition getLastInsertedRowId : M SQLite AttrId :=
  gets lastInsertedRowId.

(** [queryAttribute.use()(parent)(name)] followed by [next()]: the row of
    that key, if there is one. *)
Definition queryAttribute_next (parent : Z) (name : string)
  : M SQLite (option Attributes.Row) :=
  fun c =>
    let c := log (queryAttribute parent name) c in
    (Ret (find (same_key parent name) (table c)), c).

(** [queryAttributes.use()(parent)] iterated with [next()]: the names of
    the rows under [parent].  SQL leaves the order of the result rows
    open; they are listed here in insertion order, and the properties
    below compare the names read back as a set. *)
Definition queryAttributes_all (parent : Z) : M SQLite (list string) :=
  fun c =>
    let c := log (queryAttributes parent) c in
    (Ret (map Attributes.name
            (filter (fun r => Attributes.parent r = parent) (table c))), c).

(** Column accessors of a result row.  [getInt] on a text column converts
    its leading decimal digits (SQLite's text-to-integer conversion), and
    NULL converts to 0; [getStr] asserts that the column is not NULL. *)
Definition digit_of (c : ascii) : option Z :=
  let n := Z.of_N (N_of_ascii c) in
  if ((48 <=? n)%Z && (n <=? 57)%Z)%bool then Some (n - 48) else None.

Fixpoint digits_prefix (acc : Z) (s : string) : Z :=
  match s with
  | EmptyString => acc
  | String c rest =>
      match digit_of c with
      | Some d => digits_prefix (10 * acc + d) rest
      | None => acc
      end
  end.

Definition text_to_int (s : string) : Z :=
  match s with
  | String "-" rest => - digits_prefix 0 rest
  | _ => digits_prefix 0 s
  end.

Definition getInt_text (col : option string) : Z :=
  match col with
  | None => 0
  | Some s => text_to_int s
  end.

Definition getStr {S} (col : option string) : M S string :=
  match col with
  | None => fun s => (AssertFail, s)
  | Some s => ret s
  end.

(** A C-style cast [(AttrType) queryAttribute.getInt(i)]: the 64-bit column
    value is narrowed to the type underlying the enumeration (with GCC and
    Clang the 32-bit [unsigned int]), and widened again where an [AttrId]
    is expected.  The properties below that read an id back are stated for
    row ids below 2^32, where the cast is the identity. *)
Definition cast_AttrType (z : Z) : Z := z mod 2 ^ 32.

Definition AttrType_of_Z (z : Z) : option AttrType.t :=
  if z =? 0 then Some AttrType.Placeholder
  else if z =? 1 then Some AttrType.FullAttrs
  else if z =? 2 then Some AttrType.String
  else if z =? 3 then Some AttrType.Missing
  else if z =? 4 then Some AttrType.Misc
  else if z =? 5 then Some AttrType.Failed
  else if z =? 6 then Some AttrType.Bool
  else None.

(** ** The durable store ([struct AttrDb]) *)

Record AttrDb : Type := mkAttrDb {
  failed : bool;
  _state : State;
}.

(** [auto state(_state->lock())]: the body runs on the state. *)
Definition lock {A} (m : M State A) : M AttrDb A :=
  fun d => let (r, st) := m (_state d) in (r, mkAttrDb (failed d) st).

(** [AttrDb::doSQLite]. *)
Definition doSQLite (fun_ : M State AttrId) : M AttrDb AttrId :=
  fun d =>
    if failed d then (Ret 0, d)
    else
      match fun_ (_state d) with
      | (Raise SQLiteError, st) => (Ret 0, mkAttrDb true st)
      | (r, st) => (r, mkAttrDb (failed d) st)
      end.

Definition holds_attrs (v : AttrValue) : bool :=
  match v with
  | attrs_v _ => true
  | _ => false
  end.

(** [AttrDb::setLeaf]. *)
Definition setLeaf (key : AttrKey) (v : AttrValue) : M AttrDb AttrId :=
  assert (negb (holds_attrs v)) ;;;
  doSQLite (
    let rawValue := fromVariant v in
    on_db (insertAttributeWithContext_exec (fst key) (snd key)
             (AttrType.to_Z (type rawValue)) (value rawValue)
             (serializeContext rawValue)) ;;;
    rowId <- on_db getLastInsertedRowId ;;
    assert (negb (rowId =? 0)) ;;;
    ret rowId).

Fixpoint insert_placeholders (rowId : AttrId) (attrs : list Symbol)
  : M SQLite unit :=
  match attrs with
  | [] => ret tt
  | attr :: rest =>
      insertAttribute_exec rowId attr (AttrType.to_Z AttrType.Placeholder)
        None ;;;
      insert_placeholders rowId rest
  end.

(** [AttrDb::setAttrs]. *)
Definition setAttrs (key : AttrKey) (attrs : list Symbol) : M AttrDb AttrId :=
  doSQLite (
    on_db (insertAttribute_exec (fst key) (snd key)
             (AttrType.to_Z AttrType.FullAttrs) None) ;;;
    rowId <- on_db getLastInsertedRowId ;;
    assert (negb (rowId =? 0)) ;;;
    on_db (insert_placeholders rowId attrs) ;;;
    ret rowId).

(** [AttrDb::setValue]. *)
Definition setValue (key : AttrKey) (v : AttrValue) : M AttrDb AttrId :=
  match v with
  | attrs_v attrs => setAttrs key attrs
  | _ => setLeaf key v
  end.

(** [AttrDb::getId]. *)
Definition getId (key : AttrKey) : M AttrDb (option AttrId) :=
  lock (
    r <- on_db (queryAttribute_next (fst key) (snd key)) ;;
    match r with
    | None => ret None
    | Some row => ret (Some (cast_AttrType (Attributes.id row)))
    end).

(** [AttrDb::setIfAbsent]. *)
Definition setIfAbsent (key : AttrKey) (v : AttrValue) : M AttrDb AttrId :=
  existingId <- getId key ;;
  match existingId with
  | Some i => ret i
  | None => setValue key v
  end.

(** The context column of a [String] row, as [getAttr] decodes it. *)
Definition decode_context_column (col : option string) : Context :=
  match col with
  | None => []
  | Some text => map decodeContext (tokenizeString text ";")
  end.

(** [AttrDb::getAttr]. *)
Definition getAttr (key : AttrKey) : M AttrDb (option (AttrId * AttrValue)) :=
  lock (
    r <- on_db (queryAttribute_next (fst key) (snd key)) ;;
    match r with
    | None => ret None
    | Some row =>
        let rowId := cast_AttrType (Attributes.id row) in
        let type := cast_AttrType (Attributes.type row) in
        match AttrType_of_Z type with
        | Some AttrType.Placeholder => ret (Some (rowId, placeholder_t))
        | Some AttrType.FullAttrs =>
            names <- on_db (queryAttributes_all rowId) ;;
            ret (Some (rowId, attrs_v (map SymbolTable.create names)))
        | Some AttrType.String =>
            let context := decode_context_column (Attributes.context row) in
            s <- getStr (Attributes.value row) ;;
            ret (Some (rowId, string_t s context))
        | Some AttrType.Bool =>
            ret (Some (rowId,
                       bool_v (negb (getInt_text (Attributes.value row) =? 0))))
        | Some AttrType.Missing => ret (Some (rowId, missing_t))
        | Some AttrType.Misc => ret (Some (rowId, misc_t))
        | Some AttrType.Failed => ret (Some (rowId, failed_t))
        | None => throw (Error "unexpected type in evaluation cache")
        end
    end).

(** A store as the constructor of [AttrDb] leaves it over a new file:
    the schema created, no row, a transaction open. *)
Definition empty_SQLite : SQLite := mkSQLite [] 0 0 [] [].

Definition new_AttrDb (c : SQLite) : AttrDb :=
  mkAttrDb false (mkState c (Some (mkSQLiteTxn true))).

(** The rows of the table of a store. *)
Definition tbl (d : AttrDb) : list Attributes.Row := table (db (_state d)).

(** The statement that [setLeaf] executes for a key and a value, and the
    row it makes when the insert succeeds with the rowid [rowId]. *)
Definition leaf_stmt (key : AttrKey) (v : AttrValue) : Stmt :=
  insertAttributeWithContext (fst key) (snd key)
    (AttrType.to_Z (type (fromVariant v))) (value (fromVariant v))
    (serializeContext (fromVariant v)).

Definition leaf_row (rowId : Z) (key : AttrKey) (v : AttrValue)
  : Attributes.Row :=
  Attributes.mkRow rowId (fst key) (snd key)
    (AttrType.to_Z (type (fromVariant v))) (value (fromVariant v))
    (Some (serializeContext (fromVariant v))).

(** The rows that [setAttrs] makes: the [FullAttrs] row of the key, and one
    [Placeholder] row per name under it, with consecutive rowids. *)
Definition attrs_row (rowId : Z) (key : AttrKey) : Attributes.Row :=
  Attributes.mkRow rowId (fst key) (snd key)
    (AttrType.to_Z AttrType.FullAttrs) None None.

Fixpoint placeholder_rows (rowId first : Z) (attrs : list Symbol)
  : list Attributes.Row :=
  match attrs with
  | [] => []
  | attr :: rest =>
      Attributes.mkRow first rowId attr
        (AttrType.to_Z AttrType.Placeholder) None None
      :: placeholder_rows rowId (first + 1) rest
  end.

(** A table as the cursors of a session grow it: the parent of every row
    is a rowid that was given out before (or 0, for the root). *)
Definition store_ok (c : SQLite) : Prop :=
  0 <= seq c /\
  Forall (fun r => Attributes.parent r <= seq c) (table c).

(** Two values that are equal as the specification compares them: the
    names of an attribute set count as a set. *)
Definition same_value (v w : AttrValue) : Prop :=
  match v, w with
  | attrs_v a, attrs_v b => a ≡ₚ b
  | _, _ => v = w
  end.

(** An entry of a context that is read back as it was written when it is
    alone: no semicolon in it, and no colon in its descriptor. *)
Definition clean_entry (e : Path * string) : Prop :=
  string_mem ";" (fst e) = false /\
  string_mem ";" (snd e) = false /\
  string_mem ":" (fst e) = false.

(** The values that the row format holds as they are: a placeholder, the
    three sentinels, a string whose context is empty or one clean entry,
    and an attribute set of distinct names. *)
Definition plain_value (v : AttrValue) : Prop :=
  match v with
  | attrs_v names => NoDup names
  | string_t _ ctx => ctx = [] \/ exists e, ctx = [e] /\ clean_entry e
  | bool_v _ => False
  | _ => True
  end.

(** The number of rows that writing a value inserts. *)
Definition rows_of (v : AttrValue) : Z :=
  match v with
  | attrs_v names => 1 + Z.of_nat (length names)
  | _ => 1
  end.

(** The calls of the store's interface, and the store after a sequence of
    them. *)
Inductive Call : Type :=
  | call_setLeaf (key : AttrKey) (v : AttrValue)
  | call_setAttrs (key : AttrKey) (attrs : list Symbol)
  | call_setValue (key : AttrKey) (v : AttrValue)
  | call_setIfAbsent (key : AttrKey) (v : AttrValue)
  | call_getId (key : AttrKey)
  | call_getAttr (key : AttrKey).

Definition run_call (d : AttrDb) (c : Call) : AttrDb :=
  match c with
  | call_setLeaf key v => snd (setLeaf key v d)
  | call_setAttrs key attrs => snd (setAttrs key attrs d)
  | call_setValue key v => snd (setValue key v d)
  | call_setIfAbsent key v => snd (setIfAbsent key v d)
  | call_getId key => snd (getId key d)
  | call_getAttr key => snd (getAttr key d)
  end.

Definition run_calls (calls : list Call) (d : AttrDb) : AttrDb :=
  fold_left run_call calls d.

(** ** The cache session ([class Cache]) *)

(** The fingerprint selects the file behind a session. *)
Abbreviation Hash := string (only parsing).

(** [SQLiteTxn::commit]: the rows of the table become durable. *)
Definition SQLiteTxn_commit (c : SQLite) : SQLite :=
  mkSQLite (table c) (seq c) (lastInsertedRowId c) (table c) (trace c).

(** The body of [Cache::commit] under the lock: an active transaction is
    committed and a new one is begun. *)
Definition commit_and_begin : M State unit :=
  fun st =>
    match txn st with
    | None => (NullDeref, st)
    | Some tx =>
        if active tx then
          (Ret tt, mkState (SQLiteTxn_commit (db st)) (Some (mkSQLiteTxn true)))
        else (Ret tt, st)
    end.

Module Cache.
(** [db] is a shared pointer that may be null; the symbol table is the
    identity of [SymbolTable]. *)
Record t : Type := mk {
  db : option AttrDb;
  rootSymbol : Symbol;
}.

(** [makeAttrDb]: the constructor of [AttrDb] opens the file of the
    fingerprint; [files] gives the rows and the autoincrement sequence of
    each file that opens, and [None] where opening throws an
    [SQLiteError]. *)
Definition makeAttrDb (files : Hash -> option (list Attributes.Row * Z))
    (fingerprint : Hash) : option AttrDb :=
  match files fingerprint with
  | Some (rows, s) => Some (new_AttrDb (mkSQLite rows s 0 rows []))
  | None => None
  end.

(** [Cache::Cache]. *)
Definition new (files : Hash -> option (list Attributes.Row * Z))
    (useCache : option Hash) : t :=
  mk (match useCache with
      | Some fingerprint => makeAttrDb files fingerprint
      | None => None
      end)
     (SymbolTable.create EmptyString).

(** [Cache::commit]. *)
Definition commit : M t unit :=
  fun c =>
    match db c with
    | None => (Ret tt, c)
    | Some d =>
        let (r, d') := lock commit_and_begin d in
        (r, mk (Some d') (rootSymbol c))
    end.
End Cache.

(** ** Cursors ([class Cursor])

    Cursors are shared objects: a child holds a shared pointer to its
    parent and reads the parent's row id when it computes its key.  The
    heap holds the cursor objects of a session; a [CursorRef] is the index
    of one of them.  All cursors of a session point to its one cache. *)

Abbreviation CursorRef := nat (only parsing).

Module Cursor.
Abbreviation Parent := (option (nat * string)) (only parsing).

Record t : Type := mk {
  parent : Parent;
  cachedValue : AttrId * AttrValue;
}.

Record World : Type := mkWorld {
  root : Cache.t;
  heap : list t;
}.

(** Following a shared pointer to a cursor.  A shared pointer keeps its
    object alive, so the references that [make_shared] gave out always
    resolve. *)
Definition deref (c : CursorRef) : M World t :=
  fun w =>
    match heap w !! c with
    | Some o => (Ret o, w)
    | None => (NullDeref, w)
    end.

(** [std::make_shared<Cursor>]: a new object on the heap. *)
Definition make_shared (o : t) : M World CursorRef :=
  fun w => (Ret (length (heap w)), mkWorld (root w) (heap w ++ [o])).

(** A call [root->db->f(...)]: [db] is followed without a null check. *)
Definition on_store {A} (m : M AttrDb A) : M World A :=
  fun w =>
    match Cache.db (root w) with
    | None => (NullDeref, w)
    | Some d =>
        let (r, d') := m d in
        (r, mkWorld (Cache.mk (Some d') (Cache.rootSymbol (root w))) (heap w))
    end.

(** [Cursor::getKey], from the parent relation of the cursor. *)
Definition getKey_of (parent : Parent) : M World AttrKey :=
  match parent with
  | None => rootSymbol <- gets (fun w => Cache.rootSymbol (root w)) ;;
            ret (0, rootSymbol)
  | Some (p, name) => o <- deref p ;; ret (fst (cachedValue o), name)
  end.

Definition getKey (c : CursorRef) : M World AttrKey :=
  o <- deref c ;; getKey_of (parent o).

(** [Cursor::Cursor(root, parent, value)]: create a new cache entry. *)
Definition declare (parent : Parent) (value : AttrValue)
  : M World CursorRef :=
  key <- getKey_of parent ;;
  id <- on_store (setIfAbsent key value) ;;
  make_shared (mk parent (id, value)).

(** [Cursor::Cursor(root, parent, id, value)]: build a cursor from an
    existing cache entry. *)
Definition rehydrate (parent : Parent) (id : AttrId) (value : AttrValue)
  : M World CursorRef :=
  make_shared (mk parent (id, value)).

(** [Cursor::getCachedValue]. *)
Definition getCachedValue (c : CursorRef) : M World AttrValue :=
  o <- deref c ;; ret (snd (cachedValue o)).

(** [Cursor::setValue]. *)
Definition setValue (c : CursorRef) (v : AttrValue) : M World unit :=
  key <- getKey c ;;
  id <- on_store (setValue key v) ;;
  o <- deref c ;;
  modify (fun w => mkWorld (root w) (<[c := mk (parent o) (id, v)]> (heap w))).

(** [Cursor::addChild]. *)
Definition addChild (c : CursorRef) (attrPath : Symbol) (v : AttrValue)
  : M World CursorRef :=
  declare (Some (c, attrPath)) v.

(** [Cursor::maybeGetAttr]; [None] is the null pointer. *)
Definition maybeGetAttr (c : CursorRef) (name : Symbol)
  : M World (option CursorRef) :=
  o <- deref c ;;
  rawAttr <- on_store (getAttr (fst (cachedValue o), name)) ;;
  match rawAttr with
  | Some (id, v) =>
      child <- rehydrate (Some (c, name)) id v ;; ret (Some child)
  | None => ret None
  end.

(** [Cursor::findAlongAttrPath]: the loop over the path, left at the
    first null cursor. *)
Fixpoint findAlongAttrPath_from (currentCursor : CursorRef)
    (attrPath : list Symbol) : M World (option CursorRef) :=
  match attrPath with
  | [] => ret (Some currentCursor)
  | currentAccessor :: rest =>
      next <- maybeGetAttr currentCursor currentAccessor ;;
      match next with
      | None => ret None
      | Some c => findAlongAttrPath_from c rest
      end
  end.

Definition findAlongAttrPath (c : CursorRef) (attrPath : list Symbol)
  : M World (option CursorRef) :=
  findAlongAttrPath_from c attrPath.
End Cursor.

(** [Cache::getRoot]. *)
Definition getRoot : M Cursor.World CursorRef :=
  Cursor.declare None (attrs_v []).

(** The statements a session has executed, if it has a store. *)
Definition world_trace (w : Cursor.World) : list Stmt :=
  match Cache.db (Cursor.root w) with
  | Some d => trace (db (_state d))
  | None => []
  end.

(** A session over a new, empty store, and the same session after the
    root cursor was obtained and a placeholder child ["a"] declared under
    it. *)
Definition new_world : Cursor.World :=
  Cursor.mkWorld (Cache.mk (Some (new_AttrDb empty_SQLite)) (SymbolTable.create EmptyString))
    [].

Definition world_with_placeholder : Cursor.World :=
  snd (Cursor.addChild 0%nat "a" placeholder_t (snd (getRoot new_world))).

(** The provenance text as the specification words it: each entry as
    [encodeContext] gives it, the entries joined by one space each, the
    empty list giving the empty text. *)
Fixpoint join_entries (ctx : Context) : string :=
  match ctx with
  | [] => EmptyString
  | [e] => encodeContext (fst e) (snd e)
  | e :: rest => (encodeContext (fst e) (snd e) ++ " " ++ join_entries rest)%string
  end.

(** An entry of a context in which the character [c] does not occur. *)
Definition entry_omits (c : ascii) (e : Path * string) : Prop :=
  string_mem c (fst e) = false /\ string_mem c (snd e) = false.

(** ** The remaining entry points of the store *)

(** [AttrDb::setBool], [setPlaceholder], [setMissing], [setMisc] and
    [setFailed]. *)
Definition setBool (key : AttrKey) (b : bool) : M AttrDb AttrId :=
  setLeaf key (bool_v b).

Definition setPlaceholder (key : AttrKey) : M AttrDb AttrId :=
  setLeaf key placeholder_t.

Definition setMissing (key : AttrKey) : M AttrDb AttrId :=
  setLeaf key missing_t.

Definition setMisc (key : AttrKey) : M AttrDb AttrId :=
  setLeaf key misc_t.

Definition setFailed (key : AttrKey) : M AttrDb AttrId :=
  setLeaf key failed_t.

(** Modelled from the spec: [SQLiteTxn] is declared in sqlite.hh, which is
    not among the sources.  On teardown the open transaction is committed
    unless the failed flag is set, in which case it is discarded.
    [AttrDb::~AttrDb] gives the rows that the file holds once the store is
    destroyed: with the flag clear, [txn->commit()] makes the rows of the
    table durable (through a null [txn] it is a null dereference); with the
    flag set, [txn.reset()] alone runs, and the rows of the last commit
    remain. *)
Definition destructor (d : AttrDb) : outcome (list Attributes.Row) :=
  let c := db (_state d) in
  match txn (_state d) with
  | None => if failed d then Ret (durable c) else NullDeref
  | Some tx =>
      if negb (failed d) && active tx then Ret (table c) else Ret (durable c)
  end.

(** ** What a computation does to the state

    [preserves R m]: whatever [m] returns or throws, the state it leaves is
    related by [R] to the state it started from. *)
Definition preserves {S A} (R : S -> S -> Prop) (m : M S A) : Prop :=
  forall s, R s (snd (m s)).

(** A row that the write paths of the store can make: its type is one of
    the seven tags, and a [String] row has a value. *)
Definition storable (type : Z) (value : option string) : Prop :=
  0 <= type <= 6 /\ (type = 2 -> value <> None).

(** One step of the connection: a statement is added to the trace, or a
    storable row of a key without a row is appended with the next rowid. *)
Inductive step : SQLite -> SQLite -> Prop :=
  | step_log (s : Stmt) (c : SQLite) : step c (log s c)
  | step_insert (c : SQLite) (parent : Z) (name : string) (type : Z)
      (value context : option string) :
      find (same_key parent name) (table c) = None ->
      storable type value ->
      step c
        (mkSQLite
           (table c ++
            [Attributes.mkRow (seq c + 1) parent name type value context])
           (seq c + 1) (seq c + 1) (durable c) (trace c)).

Inductive steps : SQLite -> SQLite -> Prop :=
  | steps_refl (c : SQLite) : steps c c
  | steps_step (c1 c2 c3 : SQLite) : step c1 c2 -> steps c2 c3 -> steps c1 c3.

Definition State_steps (st st' : State) : Prop :=
  steps (db st) (db st') /\ txn st' = txn st.

Definition AttrDb_steps (d d' : AttrDb) : Prop :=
  State_steps (_state d) (_state d') /\ (failed d = true -> failed d' = true).

(** The key of a row, and the invariant of the table: the sequence is not
    negative, no two rows share a key, no two rows share an id, and every
    id is positive and at most the sequence. *)
Definition key_of (r : Attributes.Row) : Z * string :=
  (Attributes.parent r, Attributes.name r).

Definition table_inv (c : SQLite) : Prop :=
  0 <= seq c /\
  NoDup (map key_of (table c)) /\
  NoDup (map Attributes.id (table c)) /\
  Forall (fun r => 0 < Attributes.id r <= seq c) (table c).

Definition decodable (c : SQLite) : Prop :=
  Forall (fun r => storable (cast_AttrType (Attributes.type r))
                     (Attributes.value r)) (table c).

(** What a session has stored: the rows of the table, the failed flag and
    the durable rows of its store, if it has one. *)
Definition store_rows (w : Cursor.World)
  : option (list Attributes.Row * bool * list Attributes.Row) :=
  match Cache.db (Cursor.root w) with
  | Some d => Some (tbl d, failed d, durable (db (_state d)))
  | None => None
  end.

(** * Properties *)

(** ** The store on small inputs *)

Example small_missing_round_trip :
  fst ((setLeaf (0, "x") missing_t ;;; getAttr (0, "x")) (new_AttrDb empty_SQLite))
  = Ret (Some (1, missing_t)).
Proof. reflexivity. Qed.

Example small_bool_true_reads_false :
  fst ((setLeaf (0, "x") (bool_v true) ;;; getAttr (0, "x")) (new_AttrDb empty_SQLite))
  = Ret (Some (1, bool_v false)).
Proof. reflexivity. Qed.

Example small_attrs_round_trip :
  fst ((setAttrs (0, "x") ["a"; "b"] ;;; getAttr (0, "x")) (new_AttrDb empty_SQLite))
  = Ret (Some (1, attrs_v ["a"; "b"])).
Proof. reflexivity. Qed.

Example small_string_two_entries :
  fst ((setLeaf (0, "x") (string_t "s" [("a", "b"); ("c", "d")]) ;;;
        getAttr (0, "x")) (new_AttrDb empty_SQLite))
  = Ret (Some (1, string_t "s" [("a", "b c:d")])).
Proof. reflexivity. Qed.

(** ** Rows and keys *)

Lemma same_key_true parent name r :
  same_key parent name r = true <->
  Attributes.parent r = parent /\ Attributes.name r = name.
Proof.
  unfold same_key. rewrite andb_true_iff, Z.eqb_eq, String.eqb_eq. tauto.
Qed.

Lemma existsb_find {A} (f : A -> bool) (l : list A) :
  existsb f l = match find f l with Some _ => true | None => false end.
Proof.
  induction l as [|x l IH]; simpl; [reflexivity|].
  destruct (f x); simpl; [reflexivity | exact IH].
Qed.

Lemma find_snoc {A} (f : A -> bool) (l : list A) (x : A) :
  find f (l ++ [x]) =
  match find f l with
  | Some y => Some y
  | None => if f x then Some x else None
  end.
Proof.
  induction l as [|y l IH]; simpl; [reflexivity|].
  destruct (f y); [reflexivity | exact IH].
Qed.

Lemma find_app_none {A} (f : A -> bool) (l l' : list A) :
  find f l = None -> find f (l ++ l') = find f l'.
Proof.
  induction l as [|y l IH]; simpl; [reflexivity|].
  destruct (f y); [discriminate | exact IH].
Qed.

Lemma find_app_some {A} (f : A -> bool) (l l' : list A) (x : A) :
  find f l = Some x -> find f (l ++ l') = Some x.
Proof.
  induction l as [|y l IH]; simpl; [discriminate|].
  destruct (f y); [trivial | exact IH].
Qed.

(** An insert of a key that has no row succeeds and appends the row. *)
Lemma exec_insert_fresh s parent name type value context c :
  find (same_key parent name) (table c) = None ->
  exec_insert s parent name type value context c =
  (Ret tt,
   mkSQLite
     (table c ++
      [Attributes.mkRow (seq c + 1) parent name type value context])
     (seq c + 1) (seq c + 1) (durable c) (trace c ++ [s])).
Proof.
  intros Hnone. unfold exec_insert. simpl.
  rewrite existsb_find, Hnone. reflexivity.
Qed.

(** An insert of a key that has a row throws and changes only the trace. *)
Lemma exec_insert_taken s parent name type value context c row :
  find (same_key parent name) (table c) = Some row ->
  exec_insert s parent name type value context c =
  (Raise SQLiteError, log s c).
Proof.
  intros Hsome. unfold exec_insert. simpl.
  rewrite existsb_find, Hsome. reflexivity.
Qed.

(** ** The codec *)

Lemma string_app_empty_r (s : string) : (s ++ EmptyString)%string = s.
Proof. induction s as [|c s IH]; simpl; [reflexivity | now rewrite IH]. Qed.

Lemma string_app_assoc (a b c : string) :
  ((a ++ b) ++ c)%string = (a ++ (b ++ c))%string.
Proof. induction a as [|x a IH]; simpl; [reflexivity | now rewrite IH]. Qed.

Lemma pop_back_snoc (s : string) (c : ascii) :
  pop_back (s ++ String c EmptyString) = s.
Proof.
  induction s as [|x s IH]; simpl; [reflexivity|].
  rewrite IH. destruct s; reflexivity.
Qed.

Lemma serializeContext_loop_from (ctx : Context) (acc : string) :
  fold_left
    (fun res elt => ((res ++ encodeContext (fst elt) (snd elt)) ++ " ")%string)
    ctx acc =
  (acc ++ serializeContext_loop ctx)%string.
Proof.
  unfold serializeContext_loop. revert acc.
  induction ctx as [|e ctx IH]; intros acc; cbn [fold_left].
  - now rewrite string_app_empty_r.
  - rewrite (IH ((acc ++ _) ++ _)%string), (IH ((EmptyString ++ _) ++ _)%string).
    change (EmptyString ++ encodeContext (fst e) (snd e))%string
      with (encodeContext (fst e) (snd e)).
    now rewrite !string_app_assoc.
Qed.

Lemma serializeContext_loop_cons e ctx :
  serializeContext_loop (e :: ctx) =
  (encodeContext (fst e) (snd e) ++ " " ++ serializeContext_loop ctx)%string.
Proof.
  unfold serializeContext_loop at 1. simpl.
  rewrite serializeContext_loop_from. now rewrite string_app_assoc.
Qed.

Lemma serializeContext_loop_join ctx :
  ctx <> [] ->
  serializeContext_loop ctx = (join_entries ctx ++ " ")%string.
Proof.
  induction ctx as [|e ctx IH]; [congruence|]. intros _.
  rewrite serializeContext_loop_cons.
  destruct ctx as [|e' ctx].
  - reflexivity.
  - rewrite IH by discriminate.
    change (join_entries (e :: e' :: ctx))
      with (encodeContext (fst e) (snd e) ++ " " ++ join_entries (e' :: ctx))%string.
    now rewrite !string_app_assoc.
Qed.

(** [serializeContext] joins the encoded entries with one space each, and
    the empty context gives the empty text. *)
Lemma serializeContext_join (r : RawValue) :
  serializeContext r = join_entries (context r).
Proof.
  unfold serializeContext. destruct (context r) as [|e ctx] eqn:E.
  - reflexivity.
  - rewrite serializeContext_loop_join by discriminate.
    destruct (join_entries (e :: ctx) ++ " ")%string eqn:E'.
    + destruct (join_entries (e :: ctx)); discriminate.
    + simpl negb. cbv iota. rewrite <- E'. apply pop_back_snoc.
Qed.

Lemma serializeContext_nil (r : RawValue) :
  context r = [] -> serializeContext r = EmptyString.
Proof. intros H. rewrite serializeContext_join, H. reflexivity. Qed.

Lemma string_mem_app (c : ascii) (a b : string) :
  string_mem c (a ++ b) = string_mem c a || string_mem c b.
Proof.
  induction a as [|x a IH]; simpl; [reflexivity|].
  destruct (Ascii.eqb c x); [reflexivity | exact IH].
Qed.

Lemma string_empty_app (a b : string) :
  string_empty (a ++ b) = string_empty a && string_empty b.
Proof. destruct a; reflexivity. Qed.

(** A text without any separator character is one token, or none when it
    is empty. *)
Lemma tokenize_from_no_separator (sep : ascii) (s tok : string) :
  string_mem sep s = false ->
  tokenize_from (String sep EmptyString) tok s =
  if string_empty (tok ++ s) then [] else [(tok ++ s)%string].
Proof.
  revert tok. induction s as [|c s IH]; intros tok Hs; simpl.
  - rewrite string_app_empty_r. reflexivity.
  - simpl in Hs. rewrite Ascii.eqb_sym in Hs.
    destruct (Ascii.eqb c sep) eqn:E; [discriminate|].
    rewrite IH by assumption.
    now rewrite string_app_assoc.
Qed.

Lemma encodeContext_no_char (c : ascii) (d l : string) :
  c <> ":"%char ->
  string_mem c d = false -> string_mem c l = false ->
  string_mem c (encodeContext d l) = false.
Proof.
  intros Hc Hd Hl. unfold encodeContext.
  rewrite !string_mem_app, Hd, Hl. simpl.
  destruct (Ascii.eqb c ":") eqn:E; [|reflexivity].
  apply Ascii.eqb_eq in E. contradiction.
Qed.

Lemma join_entries_no_char (c : ascii) (ctx : Context) :
  c <> ":"%char -> c <> " "%char ->
  Forall (entry_omits c) ctx ->
  string_mem c (join_entries ctx) = false.
Proof.
  intros Hc Hsp Hall. induction Hall as [|e ctx [Hd Hl] Hall IH].
  - reflexivity.
  - destruct ctx as [|e' ctx].
    + simpl. now apply encodeContext_no_char.
    + change (join_entries (e :: e' :: ctx))
        with (encodeContext (fst e) (snd e) ++ " " ++ join_entries (e' :: ctx))%string.
      rewrite !string_mem_app, IH, encodeContext_no_char by assumption.
      simpl. destruct (Ascii.eqb c " ") eqn:E; [|reflexivity].
      apply Ascii.eqb_eq in E. contradiction.
Qed.

Lemma join_entries_nonempty (e : Path * string) (ctx : Context) :
  string_empty (join_entries (e :: ctx)) = false.
Proof.
  destruct ctx as [|e' ctx].
  - simpl. unfold encodeContext. rewrite !string_empty_app.
    simpl. now rewrite andb_false_r.
  - change (join_entries (e :: e' :: ctx))
      with (encodeContext (fst e) (snd e) ++ " " ++ join_entries (e' :: ctx))%string.
    rewrite !string_empty_app. simpl. now rewrite andb_false_r.
Qed.

Lemma split_colon_encoded (d l pre : string) :
  string_mem ":" d = false ->
  split_colon pre (encodeContext d l) = ((pre ++ d)%string, l).
Proof.
  unfold encodeContext. revert pre.
  induction d as [|c d IH]; intros pre Hd.
  - simpl. now rewrite string_app_empty_r.
  - cbn [string_mem] in Hd. rewrite Ascii.eqb_sym in Hd.
    cbn [append split_colon].
    destruct (Ascii.eqb c ":") eqn:E; [discriminate|].
    rewrite IH by assumption. now rewrite string_app_assoc.
Qed.

(** A context of one clean entry is read back as it was written. *)
Lemma decode_single_clean_entry (e : Path * string) :
  clean_entry e ->
  decode_context_column (Some (join_entries [e])) = [e].
Proof.
  intros (Hd & Hl & Hcolon). destruct e as [d l]. simpl in *.
  unfold decode_context_column, tokenizeString.
  rewrite tokenize_from_no_separator
    by (apply encodeContext_no_char; [discriminate|assumption..]).
  cbn [append].
  replace (string_empty (encodeContext d l)) with false
    by (unfold encodeContext; rewrite !string_empty_app; simpl;
        now rewrite andb_false_r).
  cbn [map]. unfold decodeContext.
  now rewrite split_colon_encoded.
Qed.

(** C2 (divergence): the context of a [String] is written with its entries
    joined by a space, and [getAttr] cuts the stored text at semicolons.
    For every context of two or more entries whose descriptors and
    locators hold no semicolon, decoding the serialized text gives one
    single entry, made of the whole text, and so never the original
    list. *)
Theorem C2_context_serialized_with_space_decoded_at_semicolon
    (s : string) (ctx : Context) :
  (2 <= length ctx)%nat ->
  Forall (entry_omits ";"%char) ctx ->
  let text := serializeContext (fromVariant (string_t s ctx)) in
  text = join_entries ctx /\
  decode_context_column (Some text) = [decodeContext text] /\
  decode_context_column (Some text) <> ctx.
Proof.
  intros Hlen Hall text.
  assert (Htext : text = join_entries ctx)
    by (unfold text; now rewrite serializeContext_join).
  assert (Hdec : decode_context_column (Some text) = [decodeContext text]).
  { unfold decode_context_column, tokenizeString.
    rewrite tokenize_from_no_separator.
    - destruct ctx as [|e ctx]; [simpl in Hlen; lia|].
      simpl append. rewrite Htext, join_entries_nonempty. reflexivity.
    - rewrite Htext. apply join_entries_no_char; [discriminate..|assumption]. }
  split; [assumption|]. split; [assumption|].
  rewrite Hdec. intros Heq. rewrite <- Heq in Hlen. simpl in Hlen. lia.
Qed.

Lemma C2_context_two_entries_witness :
  let ctx := [("a", "b"); ("c", "d")] in
  let text := serializeContext (fromVariant (string_t "s" ctx)) in
  text = "a:b c:d" /\
  decode_context_column (Some text) = [("a", "b c:d")] /\
  decode_context_column (Some text) <> ctx.
Proof.
  apply (C2_context_serialized_with_space_decoded_at_semicolon "s"
           [("a", "b"); ("c", "d")]).
  - simpl. lia.
  - repeat constructor.
Defined.

(** ** Writes *)

(** The row that [setLeaf] binds for a value. *)
Lemma setLeaf_fresh key v d :
  failed d = false -> holds_attrs v = false ->
  find (same_key (fst key) (snd key)) (tbl d) = None ->
  0 <= seq (db (_state d)) ->
  setLeaf key v d =
  (Ret (seq (db (_state d)) + 1),
   mkAttrDb false
     (mkState
        (mkSQLite
           (tbl d ++ [leaf_row (seq (db (_state d)) + 1) key v])
           (seq (db (_state d)) + 1) (seq (db (_state d)) + 1)
           (durable (db (_state d)))
           (trace (db (_state d)) ++ [leaf_stmt key v]))
        (txn (_state d)))).
Proof.
  destruct d as [f [[tb sq li du tr] tx]]. unfold tbl. simpl.
  intros -> Hv Hnone Hseq.
  unfold setLeaf, bind, assert. rewrite Hv. simpl.
  unfold doSQLite, bind, on_db. simpl.
  unfold insertAttributeWithContext_exec.
  rewrite exec_insert_fresh by exact Hnone. simpl.
  destruct (sq + 1 =? 0) eqn:E; [apply Z.eqb_eq in E; lia|].
  reflexivity.
Qed.

Lemma setLeaf_taken key v d row :
  failed d = false -> holds_attrs v = false ->
  find (same_key (fst key) (snd key)) (tbl d) = Some row ->
  setLeaf key v d =
  (Ret 0,
   mkAttrDb true (mkState (log (leaf_stmt key v) (db (_state d)))
                    (txn (_state d)))).
Proof.
  destruct d as [f [[tb sq li du tr] tx]]. unfold tbl. simpl.
  intros -> Hv Hsome.
  unfold setLeaf, bind, assert. rewrite Hv. simpl.
  unfold doSQLite, bind, on_db. simpl.
  unfold insertAttributeWithContext_exec.
  rewrite (exec_insert_taken _ _ _ _ _ _ _ row) by exact Hsome.
  reflexivity.
Qed.

Lemma setAttrs_taken key attrs d row :
  failed d = false ->
  find (same_key (fst key) (snd key)) (tbl d) = Some row ->
  setAttrs key attrs d =
  (Ret 0,
   mkAttrDb true
     (mkState
        (log (insertAttribute (fst key) (snd key)
                (AttrType.to_Z AttrType.FullAttrs) None) (db (_state d)))
        (txn (_state d)))).
Proof.
  destruct d as [f [[tb sq li du tr] tx]]. unfold tbl. simpl.
  intros -> Hsome.
  unfold setAttrs, doSQLite, bind, on_db. simpl.
  unfold insertAttribute_exec.
  rewrite (exec_insert_taken _ _ _ _ _ _ _ row) by exact Hsome.
  reflexivity.
Qed.

(** On a failed store every write returns 0 and leaves the store as it
    is. *)
Lemma doSQLite_failed fun_ d :
  failed d = true -> doSQLite fun_ d = (Ret 0, d).
Proof. intros H. unfold doSQLite. now rewrite H. Qed.

Lemma setValue_failed key v d :
  failed d = true -> setValue key v d = (Ret 0, d).
Proof.
  intros H. destruct v; simpl; unfold setAttrs, setLeaf, bind, assert; simpl;
    now rewrite doSQLite_failed.
Qed.

(** ** Reads *)

Lemma cast_AttrType_small z : 0 <= z < 2 ^ 32 -> cast_AttrType z = z.
Proof. intros H. unfold cast_AttrType. now apply Z.mod_small. Qed.

Lemma getId_eq key d :
  getId key d =
  (Ret (option_map (fun r => cast_AttrType (Attributes.id r))
          (find (same_key (fst key) (snd key)) (tbl d))),
   mkAttrDb (failed d)
     (mkState (log (queryAttribute (fst key) (snd key)) (db (_state d)))
        (txn (_state d)))).
Proof.
  destruct d as [f [[tb sq li du tr] tx]]. unfold tbl. simpl.
  unfold getId, lock, bind, on_db, queryAttribute_next. simpl.
  destruct (find _ tb); reflexivity.
Qed.

(** What [getAttr] returns depends on the rows of the table only: neither
    on the failed flag nor on the trace. *)
Lemma getAttr_table_only key d d' :
  tbl d = tbl d' -> fst (getAttr key d) = fst (getAttr key d').
Proof.
  destruct d as [f [[tb sq li du tr] tx]].
  destruct d' as [f' [[tb' sq' li' du' tr'] tx']]. unfold tbl. simpl.
  intros <-.
  unfold getAttr, lock, bind, on_db, queryAttribute_next. simpl.
  destruct (find _ tb) as [row|]; [|reflexivity]. simpl.
  destruct (AttrType_of_Z _) as [[]|]; simpl; try reflexivity.
  unfold getStr. destruct (Attributes.value row); reflexivity.
Qed.

Lemma getAttr_none key d :
  find (same_key (fst key) (snd key)) (tbl d) = None ->
  getAttr key d =
  (Ret None,
   mkAttrDb (failed d)
     (mkState (log (queryAttribute (fst key) (snd key)) (db (_state d)))
        (txn (_state d)))).
Proof.
  destruct d as [f [[tb sq li du tr] tx]], key as [p n]. unfold tbl. simpl.
  intros Hnone.
  unfold getAttr, lock, bind, on_db, queryAttribute_next. simpl.
  now rewrite Hnone.
Qed.

(** Reading the row that [setLeaf] made for a value. *)
Lemma getAttr_leaf_row key v d rowId :
  holds_attrs v = false ->
  find (same_key (fst key) (snd key)) (tbl d) = Some (leaf_row rowId key v) ->
  0 <= rowId < 2 ^ 32 ->
  fst (getAttr key d) =
  Ret (Some (rowId,
             match v with
             | bool_v b => bool_v (negb b)
             | string_t s ctx =>
                 string_t s (decode_context_column (Some (join_entries ctx)))
             | _ => v
             end)).
Proof.
  destruct d as [f [[tb sq li du tr] tx]], key as [p n]. unfold tbl. simpl.
  intros Hv Hfind Hid.
  unfold getAttr, lock, bind, on_db, queryAttribute_next. simpl.
  rewrite Hfind. simpl. rewrite (cast_AttrType_small rowId Hid).
  destruct v as [names|s ctx| | | | |b]; try discriminate Hv;
    try reflexivity.
  - simpl. now rewrite serializeContext_join.
  - destruct b; reflexivity.
Qed.

(** ** Writing, then reading the same key *)

Lemma same_key_leaf_row rowId key v :
  same_key (fst key) (snd key) (leaf_row rowId key v) = true.
Proof. apply same_key_true. split; reflexivity. Qed.

Lemma find_after_insert parent name (tb : list Attributes.Row) row :
  find (same_key parent name) tb = None ->
  same_key parent name row = true ->
  find (same_key parent name) (tb ++ [row]) = Some row.
Proof. intros Hnone Hrow. now rewrite find_snoc, Hnone, Hrow. Qed.

Lemma setLeaf_then_getAttr key v d :
  failed d = false -> holds_attrs v = false ->
  find (same_key (fst key) (snd key)) (tbl d) = None ->
  0 <= seq (db (_state d)) < 2 ^ 32 - 1 ->
  exists d1,
    setLeaf key v d = (Ret (seq (db (_state d)) + 1), d1) /\
    failed d1 = false /\
    tbl d1 = (tbl d ++ [leaf_row (seq (db (_state d)) + 1) key v])%list /\
    fst (getAttr key d1) =
    Ret (Some (seq (db (_state d)) + 1,
               match v with
               | bool_v b => bool_v (negb b)
               | string_t s ctx =>
                   string_t s (decode_context_column (Some (join_entries ctx)))
               | _ => v
               end)).
Proof.
  intros Hf Hv Hnone Hseq.
  eexists. split; [apply setLeaf_fresh; (assumption || lia)|].
  split; [reflexivity|]. split; [reflexivity|].
  apply getAttr_leaf_row; [assumption| |lia].
  unfold tbl at 1. simpl.
  apply find_after_insert; [exact Hnone | apply same_key_leaf_row].
Qed.

(** C1 (divergence): [fromVariant] stores the literal "0" for [true] and
    "1" for [false], and [getAttr] reads a [Bool] row as "the integer of
    the literal is not 0".  Writing a boolean at a key without a row, on a
    store that has not failed, and reading the key back returns the
    negated boolean. *)
Theorem C1_bool_written_is_read_back_negated
    (key : AttrKey) (b : bool) (d : AttrDb) :
  failed d = false ->
  find (same_key (fst key) (snd key)) (tbl d) = None ->
  0 <= seq (db (_state d)) < 2 ^ 32 - 1 ->
  value (fromVariant (bool_v b)) = Some (if b then "0" else "1") /\
  exists d1,
    setValue key (bool_v b) d = (Ret (seq (db (_state d)) + 1), d1) /\
    fst (getAttr key d1) =
    Ret (Some (seq (db (_state d)) + 1, bool_v (negb b))).
Proof.
  intros Hf Hnone Hseq. split; [reflexivity|].
  destruct (setLeaf_then_getAttr key (bool_v b) d Hf eq_refl Hnone Hseq)
    as (d1 & Hset & _ & _ & Hget).
  exists d1. split; assumption.
Qed.

Lemma C1_bool_true_witness :
  value (fromVariant (bool_v true)) = Some "0" /\
  exists d1,
    setValue (0, "x") (bool_v true) (new_AttrDb empty_SQLite) = (Ret 1, d1) /\
    fst (getAttr (0, "x") d1) = Ret (Some (1, bool_v false)).
Proof.
  apply (C1_bool_written_is_read_back_negated (0, "x") true
           (new_AttrDb empty_SQLite)).
  - reflexivity.
  - reflexivity.
  - simpl. lia.
Defined.

(** ** Declaring an attribute set *)

Lemma same_key_placeholder_other rowId first a b :
  a <> b ->
  same_key rowId b
    (Attributes.mkRow first rowId a
       (AttrType.to_Z AttrType.Placeholder) None None) = false.
Proof.
  intros Hne. destruct (same_key _ _ _) eqn:E; [|reflexivity].
  apply same_key_true in E. simpl in E. destruct E as [_ E]. contradiction.
Qed.

Lemma insert_placeholders_fresh rowId attrs c :
  NoDup attrs ->
  (forall a, a ∈ attrs -> find (same_key rowId a) (table c) = None) ->
  exists c',
    insert_placeholders rowId attrs c = (Ret tt, c') /\
    table c' = (table c ++ placeholder_rows rowId (seq c + 1) attrs)%list /\
    seq c' = seq c + Z.of_nat (length attrs) /\
    durable c' = durable c.
Proof.
  revert c. induction attrs as [|a attrs IH]; intros c Hnd Hfresh.
  - exists c. simpl. rewrite app_nil_r, Z.add_0_r. now unfold ret.
  - apply NoDup_cons in Hnd as [Hnotin Hnd].
    cbn [insert_placeholders]. unfold bind, insertAttribute_exec.
    rewrite exec_insert_fresh by (apply Hfresh; left).
    set (c1 := mkSQLite _ _ _ _ _).
    destruct (IH c1 Hnd) as (c' & Hrun & Htb & Hseq & Hdur).
    { intros b Hb. subst c1. cbn [table].
      rewrite find_snoc, (Hfresh b) by (now right).
      rewrite same_key_placeholder_other; [reflexivity|].
      intros ->. contradiction. }
    exists c'. split; [exact Hrun|].
    subst c1. cbn [table seq durable] in *.
    rewrite Htb, Hseq, Hdur. cbn [placeholder_rows length].
    rewrite <- app_assoc. repeat split; try reflexivity; lia.
Qed.

Lemma find_no_child rowId name (tb : list Attributes.Row) :
  Forall (fun r => Attributes.parent r <> rowId) tb ->
  find (same_key rowId name) tb = None.
Proof.
  induction 1 as [|r tb Hr _ IH]; [reflexivity|]. simpl.
  destruct (same_key rowId name r) eqn:E; [|exact IH].
  apply same_key_true in E. destruct E as [E _]. contradiction.
Qed.

Lemma filter_no_child rowId (tb : list Attributes.Row) :
  Forall (fun r => Attributes.parent r <> rowId) tb ->
  filter (fun r => Attributes.parent r = rowId) tb = [].
Proof.
  induction 1 as [|r tb Hr _ IH]; [reflexivity|].
  rewrite filter_cons_False by assumption. exact IH.
Qed.

Lemma filter_placeholder_rows rowId first attrs :
  map Attributes.name
    (filter (fun r => Attributes.parent r = rowId)
       (placeholder_rows rowId first attrs)) = attrs.
Proof.
  revert first. induction attrs as [|a attrs IH]; intros first;
    [reflexivity|].
  cbn [placeholder_rows]. rewrite filter_cons_True by reflexivity.
  cbn [map Attributes.name]. now rewrite IH.
Qed.

Lemma find_placeholder_rows rowId first attrs a :
  a ∈ attrs ->
  exists i,
    first <= i < first + Z.of_nat (length attrs) /\
    find (same_key rowId a) (placeholder_rows rowId first attrs) =
    Some (Attributes.mkRow i rowId a
            (AttrType.to_Z AttrType.Placeholder) None None).
Proof.
  revert first. induction attrs as [|b attrs IH]; intros first Hin.
  - apply elem_of_nil in Hin. contradiction.
  - cbn [placeholder_rows find length].
    destruct (string_dec b a) as [->|Hne].
    + exists first. split; [lia|].
      replace (same_key rowId a _) with true; [reflexivity|].
      symmetry. apply same_key_true. split; reflexivity.
    + rewrite same_key_placeholder_other by assumption.
      apply elem_of_cons in Hin as [->|Hin]; [contradiction|].
      destruct (IH (first + 1) Hin) as (i & Hi & Hfind).
      exists i. split; [lia | exact Hfind].
Qed.

Lemma store_ok_no_child c :
  store_ok c ->
  Forall (fun r => Attributes.parent r <> seq c + 1) (table c).
Proof.
  intros [_ Hall]. eapply Forall_impl; [exact Hall|].
  intros r Hr. simpl in Hr. lia.
Qed.

Lemma setAttrs_fresh key attrs d :
  failed d = false ->
  store_ok (db (_state d)) ->
  fst key <= seq (db (_state d)) ->
  find (same_key (fst key) (snd key)) (tbl d) = None ->
  NoDup attrs ->
  let rowId := seq (db (_state d)) + 1 in
  exists d1,
    setAttrs key attrs d = (Ret rowId, d1) /\
    failed d1 = false /\
    tbl d1 =
      (tbl d ++ attrs_row rowId key :: placeholder_rows rowId (rowId + 1) attrs)%list /\
    seq (db (_state d1)) = rowId + Z.of_nat (length attrs) /\
    durable (db (_state d1)) = durable (db (_state d)) /\
    txn (_state d1) = txn (_state d).
Proof.
  destruct d as [f [[tb sq li du tr] tx]], key as [p n]. unfold tbl. simpl.
  intros -> Hok Hp Hnone Hnd.
  pose proof (store_ok_no_child _ Hok) as Hchild. simpl in Hchild.
  destruct Hok as [Hseq _]. simpl in Hseq.
  unfold setAttrs, doSQLite, bind, on_db. simpl.
  unfold insertAttribute_exec.
  rewrite exec_insert_fresh by exact Hnone. simpl.
  destruct (sq + 1 =? 0) eqn:E; [apply Z.eqb_eq in E; lia|]. simpl.
  set (c1 := mkSQLite _ _ _ _ _).
  destruct (insert_placeholders_fresh (sq + 1) attrs c1 Hnd)
    as (c' & Hrun & Htb & Hsq & Hdur).
  { intros a _. subst c1. cbn [table].
    rewrite find_snoc, (find_no_child _ _ _ Hchild).
    destruct (same_key _ _ _) eqn:E'; [|reflexivity].
    apply same_key_true in E'. simpl in E'. lia. }
  rewrite Hrun. simpl.
  exists (mkAttrDb false (mkState c' tx)). simpl.
  subst c1. cbn [table seq durable] in *.
  rewrite Htb, Hsq, Hdur, <- app_assoc. repeat split; reflexivity.
Qed.

(** Declaring distinct names at a key without a row, and reading the key
    and the names back. *)
Lemma setAttrs_then_getAttr
    (key : AttrKey) (names : list Symbol) (d : AttrDb) :
  failed d = false ->
  store_ok (db (_state d)) ->
  fst key <= seq (db (_state d)) ->
  find (same_key (fst key) (snd key)) (tbl d) = None ->
  NoDup names ->
  seq (db (_state d)) + 1 + Z.of_nat (length names) < 2 ^ 32 ->
  let rowId := seq (db (_state d)) + 1 in
  exists d1,
    setAttrs key names d = (Ret rowId, d1) /\
    failed d1 = false /\
    tbl d1 =
      (tbl d ++ attrs_row rowId key :: placeholder_rows rowId (rowId + 1) names)%list /\
    durable (db (_state d1)) = durable (db (_state d)) /\
    txn (_state d1) = txn (_state d) /\
    (forall a, a ∈ names ->
       exists i, fst (getAttr (rowId, a) d1) = Ret (Some (i, placeholder_t))) /\
    exists names',
      fst (getAttr key d1) = Ret (Some (rowId, attrs_v names')) /\
      names' ≡ₚ names.
Proof.
  intros Hf Hok Hp Hnone Hnd Hbound rowId.
  destruct (setAttrs_fresh key names d Hf Hok Hp Hnone Hnd)
    as (d1 & Hrun & Hf1 & Htb & _ & Hdur & Htxn).
  fold rowId in Hrun, Htb.
  pose proof (store_ok_no_child _ Hok) as Hchild. fold rowId in Hchild.
  destruct Hok as [Hseq _].
  exists d1. repeat (split; [assumption|]). split.
  - intros a Ha.
    destruct (find_placeholder_rows rowId (rowId + 1) names a Ha)
      as (i & Hi & Hfind).
    exists i.
    destruct d1 as [f1 [[tb1 sq1 li1 du1 tr1] tx1]]. unfold tbl in Htb.
    simpl in Htb. subst tb1.
    unfold getAttr, lock, bind, on_db, queryAttribute_next. simpl.
    rewrite find_app_none by (apply find_no_child; exact Hchild).
    cbn [find].
    replace (same_key rowId a (attrs_row rowId key)) with false.
    2:{ symmetry. destruct (same_key _ _ _) eqn:E; [|reflexivity].
        apply same_key_true in E. simpl in E. lia. }
    rewrite Hfind. simpl.
    rewrite cast_AttrType_small by lia. reflexivity.
  - exists names. split; [|reflexivity].
    destruct d1 as [f1 [[tb1 sq1 li1 du1 tr1] tx1]], key as [p n].
    unfold tbl in Htb, Hnone, Hchild. simpl in *. subst tb1.
    unfold getAttr, lock, bind, on_db, queryAttribute_next. simpl.
    rewrite find_app_none by exact Hnone.
    cbn [find].
    replace (same_key p n (attrs_row rowId (p, n))) with true.
    2:{ symmetry. apply same_key_true. split; reflexivity. }
    simpl. rewrite cast_AttrType_small by lia.
    unfold queryAttributes_all, SymbolTable.create. simpl.
    rewrite filter_app, (filter_no_child _ _ Hchild).
    rewrite filter_cons_False by (simpl; lia).
    simpl. rewrite filter_placeholder_rows, map_id. reflexivity.
Qed.

(** C7: on a store that has not failed, declaring the distinct names
    [names] at a key without a row inserts the [FullAttrs] row of the key
    and one [Placeholder] row per name under it, in the open transaction
    (nothing becomes durable); afterwards every name reads as
    [Placeholder] under the new row, and the key reads as [FullAttrs] with
    exactly these names (as a set: the order of the result rows of the
    query is left open). *)
Theorem C7_setAttrs_declares_placeholder_children
    (key : AttrKey) (names : list Symbol) (d : AttrDb) :
  failed d = false ->
  store_ok (db (_state d)) ->
  fst key <= seq (db (_state d)) ->
  find (same_key (fst key) (snd key)) (tbl d) = None ->
  NoDup names ->
  seq (db (_state d)) + 1 + Z.of_nat (length names) < 2 ^ 32 ->
  let rowId := seq (db (_state d)) + 1 in
  exists d1,
    setAttrs key names d = (Ret rowId, d1) /\
    failed d1 = false /\
    tbl d1 =
      (tbl d ++ attrs_row rowId key :: placeholder_rows rowId (rowId + 1) names)%list /\
    durable (db (_state d1)) = durable (db (_state d)) /\
    txn (_state d1) = txn (_state d) /\
    (forall a, a ∈ names ->
       exists i, fst (getAttr (rowId, a) d1) = Ret (Some (i, placeholder_t))) /\
    exists names',
      fst (getAttr key d1) = Ret (Some (rowId, attrs_v names')) /\
      names' ≡ₚ names.
Proof.
  intros Hf Hok Hp Hnone Hnd Hbound.
  exact (setAttrs_then_getAttr key names d Hf Hok Hp Hnone Hnd Hbound).
Qed.

Lemma C7_setAttrs_abc_witness :
  exists d1,
    setAttrs (0, "k") ["a"; "b"; "c"] (new_AttrDb empty_SQLite) = (Ret 1, d1) /\
    failed d1 = false /\
    tbl d1 =
      [attrs_row 1 (0, "k");
       Attributes.mkRow 2 1 "a" 0 None None;
       Attributes.mkRow 3 1 "b" 0 None None;
       Attributes.mkRow 4 1 "c" 0 None None] /\
    durable (db (_state d1)) = [] /\
    txn (_state d1) = Some (mkSQLiteTxn true) /\
    (forall a, a ∈ ["a"; "b"; "c"] ->
       exists i, fst (getAttr (1, a) d1) = Ret (Some (i, placeholder_t))) /\
    exists names',
      fst (getAttr (0, "k") d1) = Ret (Some (1, attrs_v names')) /\
      names' ≡ₚ ["a"; "b"; "c"].
Proof.
  apply (C7_setAttrs_declares_placeholder_children (0, "k") ["a"; "b"; "c"]
           (new_AttrDb empty_SQLite)).
  - reflexivity.
  - split; [simpl; lia | constructor].
  - simpl. lia.
  - reflexivity.
  - apply (bool_decide_unpack _). vm_compute. exact I.
  - simpl. lia.
Defined.

(** ** Idempotent declaration *)

Lemma same_value_refl v : same_value v v.
Proof. destruct v; simpl; reflexivity. Qed.

(** The case of a leaf in the lemma below: the row of the leaf is found
    at the key, and the value read is the value written. *)
Ltac leaf_round_trip key v d rowId Hf Hnone Hbound :=
  let d1 := fresh "d1" in
  let Hrun := fresh "Hrun" in
  let Hf1 := fresh "Hf1" in
  let Htb := fresh "Htb" in
  let Hget := fresh "Hget" in
  destruct (setLeaf_then_getAttr key v d Hf eq_refl Hnone)
    as (d1 & Hrun & Hf1 & Htb & Hget); [simpl in Hbound; lia|];
  exists d1, (leaf_row rowId key v), v;
  repeat (split; [assumption || reflexivity|]);
  (split; [|split; [reflexivity | split; [exact Hget | reflexivity]]]);
  rewrite Htb; apply find_after_insert; [exact Hnone|];
  apply same_key_leaf_row.

(** Writing a plain value at a key without a row, and reading it back. *)
Lemma setValue_then_getAttr key v d :
  failed d = false ->
  store_ok (db (_state d)) ->
  fst key <= seq (db (_state d)) ->
  find (same_key (fst key) (snd key)) (tbl d) = None ->
  plain_value v ->
  seq (db (_state d)) + rows_of v < 2 ^ 32 ->
  let rowId := seq (db (_state d)) + 1 in
  exists d1 row v',
    setValue key v d = (Ret rowId, d1) /\
    failed d1 = false /\
    find (same_key (fst key) (snd key)) (tbl d1) = Some row /\
    Attributes.id row = rowId /\
    fst (getAttr key d1) = Ret (Some (rowId, v')) /\
    same_value v' v.
Proof.
  intros Hf Hok Hp Hnone Hplain Hbound rowId.
  assert (Hseq : 0 <= seq (db (_state d))) by apply Hok.
  destruct v as [names|s ctx| | | | |b].
  - destruct (setAttrs_then_getAttr key names d Hf Hok Hp Hnone Hplain)
      as (d1 & Hrun & Hf1 & Htb & _ & _ & _ & names' & Hget & Hperm).
    { simpl in Hbound. lia. }
    exists d1, (attrs_row rowId key), (attrs_v names').
    repeat (split; [assumption || reflexivity|]).
    split; [|split; [reflexivity | split; assumption]].
    rewrite Htb. rewrite find_app_none by exact Hnone. cbn [find].
    replace (same_key _ _ _) with true; [reflexivity|].
    symmetry. apply same_key_true. split; reflexivity.
  - assert (Hctx : decode_context_column (Some (join_entries ctx)) = ctx).
    { destruct Hplain as [->|(e & -> & He)]; [reflexivity|].
      now apply decode_single_clean_entry. }
    destruct (setLeaf_then_getAttr key (string_t s ctx) d Hf eq_refl Hnone)
      as (d1 & Hrun & Hf1 & Htb & Hget); [simpl in Hbound; lia|].
    rewrite Hctx in Hget.
    exists d1, (leaf_row rowId key (string_t s ctx)), (string_t s ctx).
    repeat (split; [assumption || reflexivity|]).
    split; [|split; [reflexivity | split; [exact Hget | reflexivity]]].
    rewrite Htb. apply find_after_insert; [exact Hnone|].
    apply same_key_leaf_row.
  - leaf_round_trip key placeholder_t d rowId Hf Hnone Hbound.
  - leaf_round_trip key missing_t d rowId Hf Hnone Hbound.
  - leaf_round_trip key misc_t d rowId Hf Hnone Hbound.
  - leaf_round_trip key failed_t d rowId Hf Hnone Hbound.
  - contradiction.
Qed.

(** C4 (amended): on a store that has not failed, for a key without a row
    (its parent being 0 or a rowid given out before) and a first candidate
    that is a plain value, two calls of [setIfAbsent] on the key return the
    same row id, which is not 0; the second call executes the look-up
    query only and leaves the table as it is; and reading the key back
    yields the value of the first call, whatever the second candidate
    was. *)
Theorem C4_setIfAbsent_first_writer_wins
    (key : AttrKey) (v1 v2 : AttrValue) (d : AttrDb) :
  failed d = false ->
  store_ok (db (_state d)) ->
  fst key <= seq (db (_state d)) ->
  find (same_key (fst key) (snd key)) (tbl d) = None ->
  plain_value v1 ->
  seq (db (_state d)) + rows_of v1 < 2 ^ 32 ->
  exists rowId d1 d2 v',
    setIfAbsent key v1 d = (Ret rowId, d1) /\
    setIfAbsent key v2 d1 = (Ret rowId, d2) /\
    rowId <> 0 /\
    tbl d2 = tbl d1 /\
    failed d2 = false /\
    trace (db (_state d2)) =
      (trace (db (_state d1)) ++ [queryAttribute (fst key) (snd key)])%list /\
    fst (getAttr key d2) = Ret (Some (rowId, v')) /\
    same_value v' v1.
Proof.
  intros Hf Hok Hp Hnone Hplain Hbound.
  assert (Hseq : 0 <= seq (db (_state d))) by apply Hok.
  set (d0 := mkAttrDb (failed d)
               (mkState (log (queryAttribute (fst key) (snd key))
                           (db (_state d))) (txn (_state d)))).
  destruct (setValue_then_getAttr key v1 d0 Hf Hok Hp Hnone Hplain Hbound)
    as (d1 & row & v' & Hrun & Hf1 & Hfind & Hid & Hget & Hsame).
  cbn [d0 _state db seq log] in Hrun, Hid, Hget.
  assert (Hrows : 1 <= rows_of v1) by (destruct v1; simpl; lia).
  exists (seq (db (_state d)) + 1), d1.
  exists (mkAttrDb (failed d1)
            (mkState (log (queryAttribute (fst key) (snd key))
                        (db (_state d1))) (txn (_state d1)))), v'.
  split; [|split; [|split; [lia|]]].
  - unfold setIfAbsent, bind. rewrite getId_eq. rewrite Hnone. exact Hrun.
  - unfold setIfAbsent, bind. rewrite getId_eq. rewrite Hfind. simpl.
    rewrite Hid, cast_AttrType_small by lia. reflexivity.
  - repeat split; try assumption; try reflexivity.
    transitivity (fst (getAttr key d1));
      [now apply getAttr_table_only | exact Hget].
Qed.

Lemma C4_setIfAbsent_first_writer_wins_witness :
  exists rowId d1 d2 v',
    setIfAbsent (0, "k") failed_t (new_AttrDb empty_SQLite) = (Ret rowId, d1) /\
    setIfAbsent (0, "k") (bool_v true) d1 = (Ret rowId, d2) /\
    rowId <> 0 /\
    tbl d2 = tbl d1 /\
    failed d2 = false /\
    trace (db (_state d2)) =
      (trace (db (_state d1)) ++ [queryAttribute 0 "k"])%list /\
    fst (getAttr (0, "k") d2) = Ret (Some (rowId, v')) /\
    same_value v' failed_t.
Proof.
  apply (C4_setIfAbsent_first_writer_wins (0, "k") failed_t (bool_v true)
           (new_AttrDb empty_SQLite)).
  - reflexivity.
  - split; [simpl; lia | constructor].
  - simpl. lia.
  - reflexivity.
  - exact I.
  - simpl. lia.
Defined.

(** C4 (as stated, refuted): the key [(0, "k")] already holds [Missing];
    two calls of [setIfAbsent] with the candidates [Failed] and [Misc]
    both return the row id 1, and the key still reads [Missing], not the
    candidate of the first call. *)
Lemma C4_existing_row_wins_over_first_call :
  let k : AttrKey := (0, "k") in
  let d0 := snd (setValue k missing_t (new_AttrDb empty_SQLite)) in
  let r1 := setIfAbsent k failed_t d0 in
  let r2 := setIfAbsent k misc_t (snd r1) in
  fst r1 = Ret 1 /\ fst r2 = Ret 1 /\
  fst (getAttr k (snd r2)) = Ret (Some (1, missing_t)) /\
  fst (getAttr k (snd r2)) <> Ret (Some (1, failed_t)).
Proof.
  vm_compute. repeat split; try reflexivity. discriminate.
Qed.

(** ** Sticky failure *)

Lemma lock_failed {A} (m : M State A) d :
  failed (snd (lock m d)) = failed d.
Proof. unfold lock. destruct (m (_state d)). reflexivity. Qed.

Lemma setLeaf_failed key v d :
  failed d = true -> failed (snd (setLeaf key v d)) = true.
Proof.
  intros H. unfold setLeaf, bind, assert.
  destruct (negb (holds_attrs v)); simpl; [|exact H].
  now rewrite doSQLite_failed.
Qed.

Lemma run_call_failed d c :
  failed d = true -> failed (run_call d c) = true.
Proof.
  intros H. destruct c as [key v|key attrs|key v|key v|key|key];
    cbn [run_call].
  - now apply setLeaf_failed.
  - unfold setAttrs. now rewrite doSQLite_failed.
  - now rewrite setValue_failed.
  - unfold setIfAbsent, bind. rewrite getId_eq.
    destruct (option_map _ _); simpl; [exact H|].
    now rewrite setValue_failed.
  - unfold getId. now rewrite lock_failed.
  - unfold getAttr. now rewrite lock_failed.
Qed.

Lemma run_calls_failed calls d :
  failed d = true -> failed (run_calls calls d) = true.
Proof.
  unfold run_calls. revert d.
  induction calls as [|c calls IH]; intros d H; simpl; [exact H|].
  apply IH. now apply run_call_failed.
Qed.

(** C6 (amended): when the body of a write throws an [SQLiteError],
    [doSQLite] returns 0 and sets the failed flag; the flag then stays set
    through every later call of the store; [setLeaf], [setAttrs] and
    [setValue] return 0 and leave the store untouched, without executing
    any statement.  The reads do not look at the flag: [getId] and
    [getAttr] return what they return on the same rows without the flag,
    so they miss exactly on the keys that have no row, and [setIfAbsent]
    still returns the id of a row that exists (and 0 on a key without a
    row, writing nothing). *)
Theorem C6_failed_flag_sticky_writes_noop_reads_unguarded
    (fun_ : M State AttrId) (d : AttrDb) (st : State) :
  failed d = false ->
  fun_ (_state d) = (Raise SQLiteError, st) ->
  let d' := mkAttrDb true st in
  doSQLite fun_ d = (Ret 0, d') /\
  (forall calls, failed (run_calls calls d') = true) /\
  (forall key v, holds_attrs v = false -> setLeaf key v d' = (Ret 0, d')) /\
  (forall key attrs, setAttrs key attrs d' = (Ret 0, d')) /\
  (forall key v, setValue key v d' = (Ret 0, d')) /\
  (forall key,
     fst (getId key d') = fst (getId key (mkAttrDb false st)) /\
     fst (getAttr key d') = fst (getAttr key (mkAttrDb false st))) /\
  (forall key,
     find (same_key (fst key) (snd key)) (tbl d') = None ->
     fst (getId key d') = Ret None /\
     fst (getAttr key d') = Ret None /\
     forall v, fst (setIfAbsent key v d') = Ret 0 /\
               tbl (snd (setIfAbsent key v d')) = tbl d') /\
  (forall key row,
     find (same_key (fst key) (snd key)) (tbl d') = Some row ->
     fst (getId key d') = Ret (Some (cast_AttrType (Attributes.id row))) /\
     forall v, fst (setIfAbsent key v d') = Ret (cast_AttrType (Attributes.id row)) /\
               tbl (snd (setIfAbsent key v d')) = tbl d').
Proof.
  intros Hf Hraise d'.
  assert (Hf' : failed d' = true) by reflexivity.
  split.
  { unfold doSQLite. rewrite Hf, Hraise. reflexivity. }
  split; [intros calls; now apply run_calls_failed|].
  split.
  { intros key v Hv. unfold setLeaf, bind, assert. rewrite Hv. simpl.
    now rewrite doSQLite_failed. }
  split; [intros key attrs; unfold setAttrs; now rewrite doSQLite_failed|].
  split; [intros key v; now apply setValue_failed|].
  split.
  { intros key. split; [now rewrite !getId_eq|].
    now apply getAttr_table_only. }
  split.
  - intros key Hnone. split; [|split].
    + rewrite getId_eq. now rewrite Hnone.
    + now rewrite getAttr_none.
    + intros v. unfold setIfAbsent, bind. rewrite getId_eq.
      rewrite Hnone. simpl. rewrite setValue_failed by reflexivity.
      split; reflexivity.
  - intros key row Hsome. split.
    + rewrite getId_eq. now rewrite Hsome.
    + intros v. unfold setIfAbsent, bind. rewrite getId_eq.
      rewrite Hsome. split; reflexivity.
Qed.

Lemma C6_failed_flag_sticky_witness :
  let k : AttrKey := (0, "k") in
  let d := snd (setValue k missing_t (new_AttrDb empty_SQLite)) in
  let fun_ : M State AttrId :=
    on_db (insertAttribute_exec 0 "k" 5 None) ;;; on_db getLastInsertedRowId in
  let d' := mkAttrDb true (snd (fun_ (_state d))) in
  failed d = false /\
  fst (fun_ (_state d)) = Raise SQLiteError /\
  doSQLite fun_ d = (Ret 0, d') /\
  (forall calls, failed (run_calls calls d') = true) /\
  (forall key v, setValue key v d' = (Ret 0, d')) /\
  fst (getAttr k d') = fst (getAttr k (mkAttrDb false (_state d'))).
Proof.
  intros k d fun_ d'.
  destruct (C6_failed_flag_sticky_writes_noop_reads_unguarded
              fun_ d (snd (fun_ (_state d))) eq_refl eq_refl)
    as (H1 & H2 & _ & _ & H5 & H6 & _).
  split; [reflexivity|]. split; [reflexivity|].
  split; [exact H1|]. split; [exact H2|]. split; [exact H5|].
  exact (proj2 (H6 k)).
Defined.

(** C6 (as stated, refuted): the key [(0, "k")] holds [Missing]; a second
    insert at the key breaks the unique constraint, and the store fails.
    After that [getId] and [getAttr] still find the row, and
    [setIfAbsent] returns its id, not 0. *)
Lemma C6_reads_after_failure_still_hit :
  let k : AttrKey := (0, "k") in
  let d1 := snd (setValue k missing_t (new_AttrDb empty_SQLite)) in
  let r2 := setValue k failed_t d1 in
  let d2 := snd r2 in
  fst r2 = Ret 0 /\ failed d2 = true /\
  fst (getId k d2) = Ret (Some 1) /\
  fst (getAttr k d2) = Ret (Some (1, missing_t)) /\
  fst (getId k d2) <> Ret None /\
  fst (getAttr k d2) <> Ret None /\
  fst (setIfAbsent k misc_t d2) = Ret 1.
Proof.
  vm_compute. repeat split; try reflexivity; discriminate.
Qed.

(** ** Cursors *)

Lemma getKey_of_state parent w : snd (Cursor.getKey_of parent w) = w.
Proof.
  unfold Cursor.getKey_of. destruct parent as [[p name]|]; [|reflexivity].
  unfold bind, Cursor.deref. destruct (Cursor.heap w !! p); reflexivity.
Qed.

Lemma getKey_state c w : snd (Cursor.getKey c w) = w.
Proof.
  unfold Cursor.getKey, bind, Cursor.deref.
  destruct (Cursor.heap w !! c) as [o|]; [|reflexivity].
  apply getKey_of_state.
Qed.

Lemma getKey_of_deref c w o :
  Cursor.heap w !! c = Some o ->
  Cursor.getKey c w = Cursor.getKey_of (Cursor.parent o) w.
Proof.
  intros H. unfold Cursor.getKey, bind, Cursor.deref. now rewrite H.
Qed.

(** A write at a key that has a row: the insert breaks the unique
    constraint, [doSQLite] returns 0 and the store fails; the table is
    left as it was. *)
Lemma setValue_taken key v d row :
  failed d = false ->
  find (same_key (fst key) (snd key)) (tbl d) = Some row ->
  exists d',
    setValue key v d = (Ret 0, d') /\
    failed d' = true /\
    tbl d' = tbl d.
Proof.
  intros Hf Hsome. destruct v as [names|s ctx| | | | |b]; cbn [setValue];
    eexists;
    (split;
     [ first [ apply (setAttrs_taken _ _ _ row Hf Hsome)
             | eapply setLeaf_taken; [exact Hf | reflexivity | exact Hsome] ]
     | split; reflexivity ]).
Qed.

(** C3 (divergence): [Cursor::setValue] writes with a plain insert.  For a
    cursor whose key has a row in the store (a [Placeholder], or any
    other), on a store that has not failed, the call does not overwrite
    the row: the unique constraint rejects the insert, the store enters
    the failed state, the memo becomes (0, v), and the key reads as it did
    before the call. *)
Theorem C3_cursor_setValue_on_stored_key_fails_the_store
    (w : Cursor.World) (c : CursorRef) (o : Cursor.t) (d : AttrDb)
    (key : AttrKey) (row : Attributes.Row) (v : AttrValue) :
  Cursor.heap w !! c = Some o ->
  Cache.db (Cursor.root w) = Some d ->
  failed d = false ->
  fst (Cursor.getKey c w) = Ret key ->
  find (same_key (fst key) (snd key)) (tbl d) = Some row ->
  exists w' d',
    Cursor.setValue c v w = (Ret tt, w') /\
    Cache.db (Cursor.root w') = Some d' /\
    failed d' = true /\
    tbl d' = tbl d /\
    Cursor.heap w' !! c = Some (Cursor.mk (Cursor.parent o) (0, v)) /\
    fst (getAttr key d') = fst (getAttr key d).
Proof.
  intros Hc Hdb Hf Hkey Hsome.
  destruct (setValue_taken key v d row Hf Hsome) as (d' & Hrun & Hf' & Htb).
  pose proof (getKey_state c w) as Hst.
  destruct (Cursor.getKey c w) as [r w0] eqn:Hk. simpl in Hkey, Hst.
  subst r w0.
  eexists. exists d'.
  unfold Cursor.setValue, bind. rewrite Hk.
  unfold Cursor.on_store. rewrite Hdb, Hrun.
  unfold Cursor.deref. cbn [Cursor.heap]. rewrite Hc.
  unfold modify. cbn [Cursor.heap Cursor.root].
  split; [reflexivity|]. cbn [Cursor.heap Cursor.root Cache.db].
  repeat split; try assumption.
  - apply list_lookup_insert_eq. now apply lookup_lt_Some in Hc.
  - now apply getAttr_table_only.
Qed.

Lemma C3_cursor_setValue_witness :
  exists w' d',
    Cursor.setValue 1%nat (bool_v true) world_with_placeholder = (Ret tt, w') /\
    Cache.db (Cursor.root w') = Some d' /\
    failed d' = true /\
    tbl d' =
      [attrs_row 1 (0, EmptyString); leaf_row 2 (1, "a") placeholder_t] /\
    Cursor.heap w' !! 1%nat =
      Some (Cursor.mk (Some (0%nat, "a")) (0, bool_v true)) /\
    fst (getAttr (1, "a") d') = Ret (Some (2, placeholder_t)).
Proof.
  let store := eval vm_compute in
    (Cache.db (Cursor.root world_with_placeholder)) in
  match store with
  | Some ?d =>
      refine (C3_cursor_setValue_on_stored_key_fails_the_store
                world_with_placeholder 1%nat
                (Cursor.mk (Some (0%nat, "a")) (2, placeholder_t)) d
                (1, "a") (leaf_row 2 (1, "a") placeholder_t) (bool_v true)
                _ _ _ _ _); reflexivity
  end.
Defined.

(** The placeholder inserts of [setAttrs] either all succeed or stop at an
    [SQLiteError]; nothing else comes out of them. *)
Lemma insert_placeholders_outcome rowId attrs c :
  exists c',
    insert_placeholders rowId attrs c = (Ret tt, c') \/
    insert_placeholders rowId attrs c = (Raise SQLiteError, c').
Proof.
  revert c. induction attrs as [|a attrs IH]; intros c.
  - exists c. left. reflexivity.
  - cbn [insert_placeholders]. unfold bind, insertAttribute_exec, exec_insert.
    destruct (existsb _ _).
    + eexists. right. reflexivity.
    + apply IH.
Qed.

(** [setIfAbsent] returns a row id on every store whose sequence is not
    negative: no assertion fails and no exception leaves it. *)
Lemma setIfAbsent_returns key v d :
  0 <= seq (db (_state d)) ->
  exists id d', setIfAbsent key v d = (Ret id, d').
Proof.
  intros Hseq. unfold setIfAbsent, bind. rewrite getId_eq.
  destruct (find _ _) as [row|] eqn:Hfind; simpl; [eauto|].
  set (d0 := mkAttrDb _ _).
  destruct (failed d0) eqn:Hf; [rewrite setValue_failed by exact Hf; eauto|].
  destruct v as [names|s ctx| | | | |b]; cbn [setValue];
    try (rewrite setLeaf_fresh by (assumption || reflexivity); eauto).
  destruct d as [f [[tb sq li du tr] tx]], key as [p n].
  unfold tbl in Hfind. simpl in *. subst d0 f.
  unfold setAttrs, doSQLite, bind, on_db. simpl.
  unfold insertAttribute_exec.
  rewrite exec_insert_fresh by exact Hfind. simpl.
  destruct (sq + 1 =? 0) eqn:E; [apply Z.eqb_eq in E; lia|]. simpl.
  match goal with
  | |- context [insert_placeholders ?r ?a ?c] =>
      destruct (insert_placeholders_outcome r a c) as (c' & [H|H]);
      rewrite H
  end; simpl; eauto.
Qed.

(** C5 (amended): a cursor built by the declaring constructor, on a cache
    that has a store, holds as its memo the row id that [setIfAbsent]
    returned and, in every case, the candidate value; [getCachedValue]
    returns the candidate.  When the key had a row already, nothing is
    written and the id is that of the existing row, yet the memo still
    holds the candidate and not the stored value. *)
Theorem C5_declared_cursor_memo_holds_candidate
    (w : Cursor.World) (parent : Cursor.Parent) (value : AttrValue)
    (d : AttrDb) (key : AttrKey) :
  Cache.db (Cursor.root w) = Some d ->
  fst (Cursor.getKey_of parent w) = Ret key ->
  0 <= seq (db (_state d)) ->
  exists c w' id d',
    Cursor.declare parent value w = (Ret c, w') /\
    setIfAbsent key value d = (Ret id, d') /\
    Cache.db (Cursor.root w') = Some d' /\
    Cursor.heap w' !! c = Some (Cursor.mk parent (id, value)) /\
    Cursor.getCachedValue c w' = (Ret value, w') /\
    (forall row,
       find (same_key (fst key) (snd key)) (tbl d) = Some row ->
       id = cast_AttrType (Attributes.id row) /\ tbl d' = tbl d).
Proof.
  intros Hdb Hkey Hseq.
  destruct (setIfAbsent_returns key value d Hseq) as (id & d' & Hrun).
  pose proof (getKey_of_state parent w) as Hst.
  destruct (Cursor.getKey_of parent w) as [r w0] eqn:Hk.
  simpl in Hkey, Hst. subst r w0.
  exists (length (Cursor.heap w)). eexists. exists id, d'.
  unfold Cursor.declare, bind. rewrite Hk.
  unfold Cursor.on_store. rewrite Hdb, Hrun.
  unfold Cursor.make_shared. cbn [Cursor.heap Cursor.root].
  split; [reflexivity|]. split; [reflexivity|].
  cbn [Cursor.heap Cursor.root Cache.db].
  assert (Hlook : (Cursor.heap w ++ [Cursor.mk parent (id, value)])%list !!
                    length (Cursor.heap w)
                  = Some (Cursor.mk parent (id, value))).
  { rewrite lookup_app_r by lia. now rewrite Nat.sub_diag. }
  split; [reflexivity|]. split; [exact Hlook|]. split.
  - unfold Cursor.getCachedValue, bind, Cursor.deref.
    cbn [Cursor.heap]. rewrite Hlook. reflexivity.
  - intros row Hrow. revert Hrun.
    unfold setIfAbsent, bind. rewrite getId_eq. rewrite Hrow. simpl. unfold ret. intros [= <- <-]. split; reflexivity.
Qed.

Lemma C5_declared_cursor_memo_witness :
  exists c w' id d',
    Cursor.declare (Some (0%nat, "a")) failed_t world_with_placeholder
      = (Ret c, w') /\
    id = 2 /\
    Cache.db (Cursor.root w') = Some d' /\
    Cursor.heap w' !! c =
      Some (Cursor.mk (Some (0%nat, "a")) (id, failed_t)) /\
    Cursor.getCachedValue c w' = (Ret failed_t, w') /\
    fst (getAttr (1, "a") d') = Ret (Some (2, placeholder_t)).
Proof.
  let store := eval vm_compute in
    (Cache.db (Cursor.root world_with_placeholder)) in
  match store with
  | Some ?d =>
      destruct (C5_declared_cursor_memo_holds_candidate
                  world_with_placeholder (Some (0%nat, "a")) failed_t d
                  (1, "a") eq_refl eq_refl)
        as (c & w' & id & d' & H1 & H2 & H3 & H4 & H5 & H6);
        [simpl; lia|];
      exists c, w', id, d';
      destruct (H6 (leaf_row 2 (1, "a") placeholder_t) eq_refl) as [Hid Htb];
      repeat split; try assumption;
      erewrite getAttr_table_only by exact Htb; reflexivity
  end.
Defined.

(** C5 (as stated, refuted): the key ["a"] under the root is declared
    twice, first with [Missing] and then with [Failed].  The second cursor
    has the row id of the first, its memo holds [Failed], and the store
    holds [Missing]: the memo is not the value that won. *)
Lemma C5_memo_is_candidate_not_stored_value :
  let w1 := snd (getRoot new_world) in
  let w2 := snd (Cursor.addChild 0%nat "a" missing_t w1) in
  let r3 := Cursor.addChild 0%nat "a" failed_t w2 in
  fst r3 = Ret 2%nat /\
  fst (Cursor.getCachedValue 2%nat (snd r3)) = Ret failed_t /\
  fst (Cursor.on_store (getAttr (1, "a")) (snd r3)) = Ret (Some (2, missing_t)) /\
  fst (Cursor.getCachedValue 2%nat (snd r3)) <> Ret missing_t.
Proof.
  vm_compute. repeat split; try reflexivity. discriminate.
Qed.

(** C8 (divergence): a cache opened without a fingerprint has a null [db],
    and the cursor code follows [db] without a null check.  [getRoot]
    dereferences the null pointer; so do [addChild], [setValue] and
    [maybeGetAttr] on a cursor built over such a cache by the rehydrating
    constructor.  Only [getCachedValue], which does not touch the store,
    returns. *)
Theorem C8_cache_without_store_null_dereference
    (files : Hash -> option (list Attributes.Row * Z))
    (name : Symbol) (v : AttrValue) :
  let w := Cursor.mkWorld (Cache.new files None) [] in
  let w1 := snd (Cursor.rehydrate None 0 (attrs_v []) w) in
  Cache.db (Cursor.root w) = None /\
  fst (getRoot w) = NullDeref /\
  fst (Cursor.addChild 0%nat name v w1) = NullDeref /\
  fst (Cursor.setValue 0%nat v w1) = NullDeref /\
  fst (Cursor.maybeGetAttr 0%nat name w1) = NullDeref /\
  fst (Cursor.getCachedValue 0%nat w1) = Ret (attrs_v []) /\
  fst (Cache.commit (Cache.new files None)) = Ret tt.
Proof. repeat split; reflexivity. Qed.

(** A look-up of a name without a row under the cursor's row misses, after
    one query, and makes no cursor. *)
Lemma maybeGetAttr_miss w c o d name :
  Cursor.heap w !! c = Some o ->
  Cache.db (Cursor.root w) = Some d ->
  find (same_key (fst (Cursor.cachedValue o)) name) (tbl d) = None ->
  exists w',
    Cursor.maybeGetAttr c name w = (Ret None, w') /\
    Cursor.heap w' = Cursor.heap w /\
    world_trace w' =
      (world_trace w ++ [queryAttribute (fst (Cursor.cachedValue o)) name])%list.
Proof.
  intros Hc Hdb Hnone.
  unfold Cursor.maybeGetAttr, bind, Cursor.deref. rewrite Hc.
  unfold Cursor.on_store. rewrite Hdb.
  rewrite (getAttr_none (fst (Cursor.cachedValue o), name) d Hnone).
  eexists. split; [reflexivity|]. split; [reflexivity|].
  unfold world_trace. cbn. rewrite Hdb. reflexivity.
Qed.

(** C9: on a cache that has a store, [maybeGetAttr] returns absent for a
    name that has no row under the cursor's row.  And when [x] resolves
    under a cursor to a node under which [y] has no row,
    [findAlongAttrPath] on [x; y; z] returns absent, exactly as it does on
    [x; y]: the last statement it executes is the query for [y], and none
    is executed for [z]. *)
Theorem C9_missing_name_is_absent_and_stops_the_walk :
  (forall (w : Cursor.World) (c : CursorRef) (o : Cursor.t) (d : AttrDb)
          (name : Symbol),
     Cursor.heap w !! c = Some o ->
     Cache.db (Cursor.root w) = Some d ->
     find (same_key (fst (Cursor.cachedValue o)) name) (tbl d) = None ->
     fst (Cursor.maybeGetAttr c name w) = Ret None) /\
  (forall (w w1 : Cursor.World) (c cx : CursorRef) (ox : Cursor.t)
          (d1 : AttrDb) (x y z : Symbol),
     Cursor.maybeGetAttr c x w = (Ret (Some cx), w1) ->
     Cursor.heap w1 !! cx = Some ox ->
     Cache.db (Cursor.root w1) = Some d1 ->
     find (same_key (fst (Cursor.cachedValue ox)) y) (tbl d1) = None ->
     exists w2,
       Cursor.findAlongAttrPath c [x; y; z] w = (Ret None, w2) /\
       Cursor.findAlongAttrPath c [x; y] w = (Ret None, w2) /\
       world_trace w2 =
         (world_trace w1 ++
          [queryAttribute (fst (Cursor.cachedValue ox)) y])%list).
Proof.
  split.
  - intros w c o d name Hc Hdb Hnone.
    destruct (maybeGetAttr_miss w c o d name Hc Hdb Hnone) as (w' & H & _).
    now rewrite H.
  - intros w w1 c cx ox d1 x y z Hx Hcx Hdb Hnone.
    destruct (maybeGetAttr_miss w1 cx ox d1 y Hcx Hdb Hnone)
      as (w2 & Hy & _ & Htrace).
    exists w2.
    unfold Cursor.findAlongAttrPath. cbn [Cursor.findAlongAttrPath_from].
    unfold bind. rewrite Hx, Hy. repeat split. exact Htrace.
Qed.

Lemma C9_missing_name_witness :
  fst (Cursor.maybeGetAttr 0%nat "b" world_with_placeholder) = Ret None /\
  exists w2,
    Cursor.findAlongAttrPath 0%nat ["a"; "y"; "z"] world_with_placeholder
      = (Ret None, w2) /\
    world_trace w2 =
      (world_trace (snd (Cursor.maybeGetAttr 0%nat "a" world_with_placeholder))
       ++ [queryAttribute 2 "y"])%list.
Proof.
  destruct C9_missing_name_is_absent_and_stops_the_walk as [H1 H2].
  split.
  - let store := eval vm_compute in
      (Cache.db (Cursor.root world_with_placeholder)) in
    match store with
    | Some ?d =>
        exact (H1 world_with_placeholder 0%nat
                 (Cursor.mk None (1, attrs_v [])) d "b"
                 eq_refl eq_refl eq_refl)
    end.
  - let w1 := eval vm_compute in
      (snd (Cursor.maybeGetAttr 0%nat "a" world_with_placeholder)) in
    let store := eval vm_compute in (Cache.db (Cursor.root w1)) in
    match store with
    | Some ?d1 =>
        destruct (H2 world_with_placeholder w1 0%nat 2%nat
                    (Cursor.mk (Some (0%nat, "a")) (2, placeholder_t)) d1
                    "a" "y" "z" eq_refl eq_refl eq_refl eq_refl)
          as (w2 & Hz & _ & Ht);
        exists w2; split; [exact Hz | exact Ht]
    end.
Defined.

(** C10: on the empty path [findAlongAttrPath] returns the cursor it was
    called on, and the session is left as it was: nothing is looked up,
    whether the cache has a store or not. *)
Theorem C10_empty_path_returns_the_cursor
    (c : CursorRef) (w : Cursor.World) :
  Cursor.findAlongAttrPath c [] w = (Ret (Some c), w) /\
  world_trace (snd (Cursor.findAlongAttrPath c [] w)) = world_trace w.
Proof. split; reflexivity. Qed.

(** * Further properties of the store and of the cursors *)

(** ** Steps of the connection under every call *)

Lemma steps_trans c1 c2 c3 : steps c1 c2 -> steps c2 c3 -> steps c1 c3.
Proof.
  induction 1 as [|a b c Hab _ IH]; [trivial|].
  intros H. eapply steps_step; [exact Hab | now apply IH].
Qed.

Lemma steps_one c1 c2 : step c1 c2 -> steps c1 c2.
Proof. intros H. eapply steps_step; [exact H | apply steps_refl]. Qed.

Lemma State_steps_refl st : State_steps st st.
Proof. split; [apply steps_refl | reflexivity]. Qed.

Lemma State_steps_trans a b c :
  State_steps a b -> State_steps b c -> State_steps a c.
Proof.
  intros [H1 T1] [H2 T2]. split; [eapply steps_trans; eassumption|].
  now rewrite T2.
Qed.

Lemma AttrDb_steps_refl d : AttrDb_steps d d.
Proof. split; [apply State_steps_refl | trivial]. Qed.

Lemma AttrDb_steps_trans a b c :
  AttrDb_steps a b -> AttrDb_steps b c -> AttrDb_steps a c.
Proof.
  intros [H1 F1] [H2 F2]. split; [eapply State_steps_trans; eassumption|].
  auto.
Qed.

Section Preserves.
Context {S : Type} (R : S -> S -> Prop).
Hypothesis R_refl : forall s, R s s.
Hypothesis R_trans : forall a b c, R a b -> R b c -> R a c.

Lemma preserves_ret {A} (a : A) : preserves R (ret a).
Proof. intros s. apply R_refl. Qed.

Lemma preserves_throw {A} (e : exn) : preserves R (@throw S A e).
Proof. intros s. apply R_refl. Qed.

Lemma preserves_assert (b : bool) : preserves R (assert b).
Proof. intros s. unfold assert. destruct b; apply R_refl. Qed.

Lemma preserves_gets {A} (f : S -> A) : preserves R (gets f).
Proof. intros s. apply R_refl. Qed.

Lemma preserves_bind {A B} (m : M S A) (k : A -> M S B) :
  preserves R m -> (forall a, preserves R (k a)) ->
  preserves R (bind m k).
Proof.
  intros Hm Hk s. unfold bind. specialize (Hm s).
  destruct (m s) as [[a|e| |] s']; simpl in *; try exact Hm.
  eapply R_trans; [exact Hm | apply Hk].
Qed.
End Preserves.

Lemma exec_insert_steps s parent name type value context :
  storable type value ->
  preserves steps (exec_insert s parent name type value context).
Proof.
  intros Hst c. unfold exec_insert.
  destruct (existsb _ _) eqn:E; simpl.
  - apply steps_one, step_log.
  - eapply steps_step; [apply (step_log s)|].
    apply steps_one.
    apply (step_insert (log s c) parent name type value context);
      [|exact Hst].
    rewrite existsb_find in E. simpl in E |- *.
    destruct (find _ _); [discriminate | reflexivity].
Qed.

Lemma queryAttribute_next_steps parent name :
  preserves steps (queryAttribute_next parent name).
Proof. intros c. apply steps_one. exact (step_log _ c). Qed.

Lemma queryAttributes_all_steps parent :
  preserves steps (queryAttributes_all parent).
Proof. intros c. apply steps_one. exact (step_log _ c). Qed.

Lemma storable_placeholder :
  storable (AttrType.to_Z AttrType.Placeholder) None.
Proof. split; simpl; [lia | discriminate]. Qed.

Lemma storable_attrs : storable (AttrType.to_Z AttrType.FullAttrs) None.
Proof. split; simpl; [lia | discriminate]. Qed.

Lemma storable_fromVariant v :
  storable (AttrType.to_Z (type (fromVariant v))) (value (fromVariant v)).
Proof. destruct v; split; simpl; try lia; discriminate. Qed.

Lemma insert_placeholders_steps rowId attrs :
  preserves steps (insert_placeholders rowId attrs).
Proof.
  induction attrs as [|a attrs IH]; cbn [insert_placeholders].
  - apply preserves_ret, steps_refl.
  - apply preserves_bind; [apply steps_trans | |].
    + apply exec_insert_steps, storable_placeholder.
    + intros _. exact IH.
Qed.

Lemma on_db_steps {A} (m : M SQLite A) :
  preserves steps m -> preserves State_steps (on_db m).
Proof.
  intros H st. unfold on_db. specialize (H (db st)).
  destruct (m (db st)) as [r c]. simpl in *. split; [exact H | reflexivity].
Qed.

Lemma lock_steps {A} (m : M State A) :
  preserves State_steps m -> preserves AttrDb_steps (lock m).
Proof.
  intros H d. unfold lock. specialize (H (_state d)).
  destruct (m (_state d)) as [r st]. simpl in *. split; [exact H | trivial].
Qed.

Lemma doSQLite_steps (fun_ : M State AttrId) :
  preserves State_steps fun_ -> preserves AttrDb_steps (doSQLite fun_).
Proof.
  intros H d. unfold doSQLite.
  destruct (failed d) eqn:Hf; [apply AttrDb_steps_refl|].
  specialize (H (_state d)).
  destruct (fun_ (_state d)) as [[a|[|msg]| |] st]; simpl in *;
    (split; [exact H | simpl; congruence]).
Qed.

Ltac steps_bind :=
  first [ apply preserves_bind; [apply AttrDb_steps_trans | |]
        | apply preserves_bind; [apply State_steps_trans | |]
        | apply preserves_bind; [apply steps_trans | |] ].

Lemma setLeaf_steps key v : preserves AttrDb_steps (setLeaf key v).
Proof.
  unfold setLeaf. steps_bind.
  - apply preserves_assert, AttrDb_steps_refl.
  - intros _. apply doSQLite_steps. steps_bind.
    + apply on_db_steps, exec_insert_steps, storable_fromVariant.
    + intros _. steps_bind.
      * apply on_db_steps, preserves_gets, steps_refl.
      * intros rowId. steps_bind.
        -- apply preserves_assert, State_steps_refl.
        -- intros _. apply preserves_ret, State_steps_refl.
Qed.

Lemma setAttrs_steps key attrs : preserves AttrDb_steps (setAttrs key attrs).
Proof.
  unfold setAttrs. apply doSQLite_steps. steps_bind.
  - apply on_db_steps, exec_insert_steps, storable_attrs.
  - intros _. steps_bind.
    + apply on_db_steps, preserves_gets, steps_refl.
    + intros rowId. steps_bind.
      * apply preserves_assert, State_steps_refl.
      * intros _. steps_bind.
        -- apply on_db_steps, insert_placeholders_steps.
        -- intros _. apply preserves_ret, State_steps_refl.
Qed.

Lemma setValue_steps key v : preserves AttrDb_steps (setValue key v).
Proof.
  destruct v; cbn [setValue];
    first [apply setAttrs_steps | apply setLeaf_steps].
Qed.

Lemma getId_steps key : preserves AttrDb_steps (getId key).
Proof.
  unfold getId. apply lock_steps. steps_bind.
  - apply on_db_steps, queryAttribute_next_steps.
  - intros [row|]; apply preserves_ret, State_steps_refl.
Qed.

Lemma setIfAbsent_steps key v : preserves AttrDb_steps (setIfAbsent key v).
Proof.
  unfold setIfAbsent. steps_bind.
  - apply getId_steps.
  - intros [i|]; [apply preserves_ret, AttrDb_steps_refl|].
    apply setValue_steps.
Qed.

Lemma getAttr_steps key : preserves AttrDb_steps (getAttr key).
Proof.
  unfold getAttr. apply lock_steps. steps_bind.
  - apply on_db_steps, queryAttribute_next_steps.
  - intros [row|]; [|apply preserves_ret, State_steps_refl].
    destruct (AttrType_of_Z _) as [[]|];
      try (apply preserves_ret, State_steps_refl);
      try (apply preserves_throw, State_steps_refl).
    + steps_bind.
      * apply on_db_steps, queryAttributes_all_steps.
      * intros names. apply preserves_ret, State_steps_refl.
    + steps_bind.
      * unfold getStr. destruct (Attributes.value row);
          [apply preserves_ret, State_steps_refl|].
        intros st. apply State_steps_refl.
      * intros s. apply preserves_ret, State_steps_refl.
Qed.

Lemma run_call_steps d c : AttrDb_steps d (run_call d c).
Proof.
  destruct c; cbn [run_call].
  - apply setLeaf_steps.
  - apply setAttrs_steps.
  - apply setValue_steps.
  - apply setIfAbsent_steps.
  - apply getId_steps.
  - apply getAttr_steps.
Qed.

Lemma run_calls_steps calls d : AttrDb_steps d (run_calls calls d).
Proof.
  unfold run_calls. revert d.
  induction calls as [|c calls IH]; intros d; simpl.
  - apply AttrDb_steps_refl.
  - eapply AttrDb_steps_trans; [apply run_call_steps | apply IH].
Qed.

(** ** What a step keeps *)

Lemma find_none_key parent name (tb : list Attributes.Row) :
  find (same_key parent name) tb = None <->
  (parent, name) ∉ map key_of tb.
Proof.
  induction tb as [|r tb IH]; simpl.
  - split; [intros _; apply not_elem_of_nil | trivial].
  - rewrite not_elem_of_cons, <- IH.
    destruct (same_key parent name r) eqn:E.
    + apply same_key_true in E as [<- <-].
      split; [discriminate | intros [H _]; now destruct H].
    + split; [|tauto]. intros H. split; [|exact H].
      intros Heq. unfold key_of in Heq. injection Heq as -> ->.
      rewrite (proj2 (same_key_true _ _ r)) in E by (split; reflexivity).
      discriminate.
Qed.

Lemma step_table_inv c c' : step c c' -> table_inv c -> table_inv c'.
Proof.
  intros Hstep (Hseq & Hkeys & Hids & Hall).
  destruct Hstep as [s c|c p n t v ctx Hnone Hst].
  - repeat split; assumption.
  - unfold table_inv. cbn [seq table].
    rewrite !map_app. cbn [map]. split; [lia|]. split; [|split].
    + apply NoDup_app. split; [exact Hkeys|]. split.
      * intros k Hk Hin. apply list_elem_of_singleton in Hin. subst k.
        apply find_none_key in Hnone. contradiction.
      * apply NoDup_singleton.
    + apply NoDup_app. split; [exact Hids|]. split.
      * intros i Hi Hin. apply list_elem_of_singleton in Hin. subst i.
        apply list_elem_of_fmap in Hi as (r & Hr & Hin).
        rewrite Forall_forall in Hall. specialize (Hall r Hin).
        simpl in Hr. lia.
      * apply NoDup_singleton.
    + apply Forall_app. split.
      * eapply Forall_impl; [exact Hall|]. intros r Hr. simpl in *. lia.
      * constructor; [simpl; lia | constructor].
Qed.

Lemma step_decodable c c' : step c c' -> decodable c -> decodable c'.
Proof.
  intros Hstep Hdec. destruct Hstep as [s c|c p n t v ctx Hnone Hst];
    [exact Hdec|].
  unfold decodable. cbn [table]. apply Forall_app. split; [exact Hdec|].
  constructor; [|constructor]. simpl.
  rewrite cast_AttrType_small; [exact Hst|].
  destruct Hst as [Ht _]. change (2 ^ 32) with 4294967296. lia.
Qed.

Lemma step_durable c c' : step c c' -> durable c' = durable c.
Proof. intros []; reflexivity. Qed.

Lemma step_prefix c c' : step c c' -> table c `prefix_of` table c'.
Proof.
  intros []; cbn [table log]; [reflexivity|]. now apply prefix_app_r.
Qed.

Lemma step_seq c c' : step c c' -> seq c <= seq c'.
Proof. intros []; simpl; lia. Qed.

Lemma steps_table_inv c c' : steps c c' -> table_inv c -> table_inv c'.
Proof. induction 1; eauto using step_table_inv. Qed.

Lemma steps_decodable c c' : steps c c' -> decodable c -> decodable c'.
Proof. induction 1; eauto using step_decodable. Qed.

Lemma steps_durable c c' : steps c c' -> durable c' = durable c.
Proof.
  induction 1 as [|a b c Hab _ IH]; [reflexivity|].
  rewrite IH. now apply step_durable.
Qed.

Lemma steps_prefix c c' : steps c c' -> table c `prefix_of` table c'.
Proof.
  induction 1 as [|a b c Hab _ IH]; [reflexivity|].
  transitivity (table b); [exact (step_prefix _ _ Hab) | exact IH].
Qed.

Lemma steps_seq c c' : steps c c' -> seq c <= seq c'.
Proof.
  induction 1 as [|a b c Hab _ IH]; [lia|].
  apply step_seq in Hab. lia.
Qed.

(** ** The codec, further *)

(** X1: [serializeContext] gives the text that the specification words:
    the encoded entries joined by one space each, without a trailing
    space; the text is empty exactly when the context is empty. *)
Theorem X1_serializeContext_is_the_single_space_join (r : RawValue) :
  serializeContext r = join_entries (context r) /\
  (serializeContext r = EmptyString <-> context r = []).
Proof.
  split; [apply serializeContext_join|].
  rewrite serializeContext_join. split.
  - destruct (context r) as [|e ctx]; [reflexivity|]. intros H.
    pose proof (join_entries_nonempty e ctx) as Hne.
    rewrite H in Hne. discriminate.
  - intros ->. reflexivity.
Qed.

(** X2: the row encoding tells apart every two values that are not both
    attribute sets: two values with the same encoding are equal, or both
    are attribute sets (whose names are not in the encoding). *)
Theorem X2_fromVariant_injective_off_attribute_sets (v w : AttrValue) :
  fromVariant v = fromVariant w ->
  v = w \/ exists a b, v = attrs_v a /\ w = attrs_v b.
Proof.
  intros H.
  destruct v as [a|s ctx| | | | |b], w as [a'|s' ctx'| | | | |b'];
    simpl in H; try discriminate H; try (left; reflexivity).
  - right. eauto.
  - injection H as -> ->. left. reflexivity.
  - left. destruct b, b'; try reflexivity; discriminate H.
Qed.

Lemma X2_fromVariant_injective_witness :
  string_t "s" [("a", "b")] = string_t "s" [("a", "b")] \/
  exists a b,
    string_t "s" [("a", "b")] = attrs_v a /\
    string_t "s" [("a", "b")] = attrs_v b.
Proof.
  apply (X2_fromVariant_injective_off_attribute_sets
           (string_t "s" [("a", "b")]) (string_t "s" [("a", "b")])).
  reflexivity.
Defined.

(** ** Invariants of the table under every call *)

(** X3: every sequence of calls of the store keeps the invariant of the
    table: no two rows share a key (parent, name), no two rows share an
    id, and every id is positive and at most the autoincrement
    sequence. *)
Theorem X3_calls_keep_keys_and_ids_distinct
    (calls : list Call) (d : AttrDb) :
  table_inv (db (_state d)) ->
  table_inv (db (_state (run_calls calls d))).
Proof.
  intros H. eapply steps_table_inv; [|exact H].
  apply (run_calls_steps calls d).
Qed.

Lemma X3_calls_keep_keys_and_ids_distinct_witness :
  table_inv
    (db (_state
           (run_calls
              [call_setValue (0, "k") (attrs_v ["a"; "a"]);
               call_setLeaf (0, "k") missing_t;
               call_setIfAbsent (1, "b") (bool_v true);
               call_getAttr (0, "k")]
              (new_AttrDb empty_SQLite)))).
Proof.
  apply (X3_calls_keep_keys_and_ids_distinct _ (new_AttrDb empty_SQLite)).
  split; [simpl; lia|]. repeat split; constructor.
Defined.

Lemma prefix_find {A} (f : A -> bool) (l l' : list A) (x : A) :
  l `prefix_of` l' -> find f l = Some x -> find f l' = Some x.
Proof. intros [k ->] H. now apply find_app_some. Qed.

(** What [getAttr] returns for a key whose row is not a [FullAttrs] row
    depends on that row only. *)
Lemma getAttr_of_leaf_row key d d' row :
  find (same_key (fst key) (snd key)) (tbl d) = Some row ->
  find (same_key (fst key) (snd key)) (tbl d') = Some row ->
  AttrType_of_Z (cast_AttrType (Attributes.type row))
    <> Some AttrType.FullAttrs ->
  fst (getAttr key d) = fst (getAttr key d').
Proof.
  destruct d as [f [[tb sq li du tr] tx]].
  destruct d' as [f' [[tb' sq' li' du' tr'] tx']], key as [p n].
  unfold tbl. simpl. intros H H' Hty.
  unfold getAttr, lock, bind, on_db, queryAttribute_next. simpl.
  rewrite H, H'. simpl.
  destruct (AttrType_of_Z _) as [[]|]; simpl; try reflexivity.
  - contradiction.
  - unfold getStr. destruct (Attributes.value row); reflexivity.
Qed.

(** X4: the store is append-only.  After any sequence of calls the table
    still begins with the rows it had; a key that had a row keeps that
    very row, [getId] returns the same id for it, and when the row is not
    an attribute set [getAttr] returns the same value for it. *)
Theorem X4_calls_never_remove_or_change_a_row
    (calls : list Call) (d : AttrDb) (key : AttrKey) (row : Attributes.Row) :
  find (same_key (fst key) (snd key)) (tbl d) = Some row ->
  let d' := run_calls calls d in
  tbl d `prefix_of` tbl d' /\
  find (same_key (fst key) (snd key)) (tbl d') = Some row /\
  fst (getId key d') = fst (getId key d) /\
  (AttrType_of_Z (cast_AttrType (Attributes.type row))
     <> Some AttrType.FullAttrs ->
   fst (getAttr key d') = fst (getAttr key d)).
Proof.
  intros Hrow d'.
  assert (Hpre : tbl d `prefix_of` tbl d').
  { apply steps_prefix. apply (run_calls_steps calls d). }
  assert (Hrow' : find (same_key (fst key) (snd key)) (tbl d') = Some row)
    by (eapply prefix_find; eassumption).
  split; [exact Hpre|]. split; [exact Hrow'|]. split.
  - rewrite !getId_eq. simpl. now rewrite Hrow, Hrow'.
  - intros Hty. now apply (getAttr_of_leaf_row key d' d row).
Qed.

Lemma X4_calls_never_remove_or_change_a_row_witness :
  let d := snd (setValue (0, "k") missing_t (new_AttrDb empty_SQLite)) in
  let d' := run_calls [call_setValue (0, "k") failed_t;
                       call_setIfAbsent (0, "k") misc_t;
                       call_setLeaf (1, "a") (bool_v true)] d in
  tbl d `prefix_of` tbl d' /\
  find (same_key 0 "k") (tbl d') = Some (leaf_row 1 (0, "k") missing_t) /\
  fst (getId (0, "k") d') = fst (getId (0, "k") d) /\
  (AttrType_of_Z (cast_AttrType 3) <> Some AttrType.FullAttrs ->
   fst (getAttr (0, "k") d') = fst (getAttr (0, "k") d)).
Proof.
  intros d.
  apply (X4_calls_never_remove_or_change_a_row _ d (0, "k")
           (leaf_row 1 (0, "k") missing_t)).
  reflexivity.
Defined.

(** X5: no call of the store makes anything durable or touches the
    transaction: after any sequence of calls the durable rows and the
    transaction are what they were, and the sequence has not gone
    back. *)
Theorem X5_calls_leave_the_durable_rows
    (calls : list Call) (d : AttrDb) :
  let d' := run_calls calls d in
  durable (db (_state d')) = durable (db (_state d)) /\
  txn (_state d') = txn (_state d) /\
  seq (db (_state d)) <= seq (db (_state d')).
Proof.
  intros d'. destruct (run_calls_steps calls d) as [[Hsteps Htxn] _].
  split; [now apply steps_durable|]. split; [exact Htxn|].
  now apply steps_seq.
Qed.

(** ** Commit, teardown and a new session *)

Lemma commit_open_transaction (c : Cache.t) (d : AttrDb) :
  Cache.db c = Some d ->
  txn (_state d) = Some (mkSQLiteTxn true) ->
  exists c' d',
    Cache.commit c = (Ret tt, c') /\
    Cache.db c' = Some d' /\
    durable (db (_state d')) = tbl d /\
    tbl d' = tbl d /\
    failed d' = failed d /\
    txn (_state d') = Some (mkSQLiteTxn true) /\
    Cache.commit c' = (Ret tt, c').
Proof.
  intros Hdb Htxn.
  destruct c as [cdb sym], d as [f [[tb sq li du tr] tx]].
  simpl in Hdb, Htxn. subst cdb tx.
  eexists. eexists.
  split; [reflexivity|]. split; [reflexivity|]. repeat split.
Qed.

(** X6: [Cache::commit] on a cache whose store has its transaction open
    makes exactly the rows of the table durable and begins a new
    transaction; it does so whether or not the store has failed; the
    table, the failed flag and what [getAttr] returns are unchanged, and a
    second commit changes nothing more. *)
Theorem X6_commit_makes_the_table_durable
    (c : Cache.t) (d : AttrDb) :
  Cache.db c = Some d ->
  txn (_state d) = Some (mkSQLiteTxn true) ->
  exists c' d',
    Cache.commit c = (Ret tt, c') /\
    Cache.db c' = Some d' /\
    durable (db (_state d')) = tbl d /\
    tbl d' = tbl d /\
    failed d' = failed d /\
    txn (_state d') = Some (mkSQLiteTxn true) /\
    (forall key, fst (getAttr key d') = fst (getAttr key d)) /\
    Cache.commit c' = (Ret tt, c').
Proof.
  intros Hdb Htxn.
  destruct c as [cdb sym], d as [f [[tb sq li du tr] tx]].
  simpl in Hdb, Htxn. subst cdb tx.
  eexists. eexists.
  split; [reflexivity|]. split; [reflexivity|].
  repeat split. intros key. now apply getAttr_table_only.
Qed.

Lemma X6_commit_makes_the_table_durable_witness :
  let d := snd (setValue (0, "k") (attrs_v ["a"; "a"])
                  (new_AttrDb empty_SQLite)) in
  exists c' d',
    Cache.commit (Cache.mk (Some d) EmptyString) = (Ret tt, c') /\
    Cache.db c' = Some d' /\
    durable (db (_state d')) = tbl d /\
    tbl d' = tbl d /\
    failed d' = true /\
    txn (_state d') = Some (mkSQLiteTxn true) /\
    (forall key, fst (getAttr key d') = fst (getAttr key d)) /\
    Cache.commit c' = (Ret tt, c').
Proof.
  intros d.
  apply (X6_commit_makes_the_table_durable (Cache.mk (Some d) EmptyString) d);
    reflexivity.
Defined.

(** X7: teardown after any sequence of calls, on a store whose transaction
    is open.  If the store has failed by then, the file keeps the rows of
    the last commit only: every row written since, before the failure as
    well as after, is discarded.  If it has not failed, the file holds
    the whole table, which begins with the rows the store had. *)
Theorem X7_teardown_commits_unless_failed
    (calls : list Call) (d : AttrDb) :
  txn (_state d) = Some (mkSQLiteTxn true) ->
  let d' := run_calls calls d in
  (failed d' = true -> destructor d' = Ret (durable (db (_state d)))) /\
  (failed d' = false ->
   destructor d' = Ret (tbl d') /\ tbl d `prefix_of` tbl d').
Proof.
  intros Htxn d'.
  destruct (run_calls_steps calls d) as [[Hsteps Htxn'] _].
  fold d' in Hsteps, Htxn'. rewrite Htxn in Htxn'.
  unfold destructor. rewrite Htxn'. split; intros Hf; rewrite Hf; simpl.
  - now rewrite (steps_durable _ _ Hsteps).
  - split; [reflexivity|]. now apply steps_prefix.
Qed.

Lemma X7_teardown_commits_unless_failed_witness :
  let d := new_AttrDb empty_SQLite in
  let d' := run_calls [call_setValue (0, "k") missing_t;
                       call_setValue (0, "k") failed_t] d in
  (failed d' = true -> destructor d' = Ret []) /\
  (failed d' = false ->
   destructor d' = Ret (tbl d') /\ tbl d `prefix_of` tbl d').
Proof.
  apply (X7_teardown_commits_unless_failed _ (new_AttrDb empty_SQLite)).
  reflexivity.
Defined.

(** X8: the durability boundary.  After a commit, whatever calls follow
    without another commit, a session opened on the rows that the file
    holds reads every key as it read at the commit: the rows written
    before the commit are there, those written after it are not. *)
Theorem X8_new_session_reads_as_of_the_last_commit
    (c : Cache.t) (d d1 : AttrDb) (calls : list Call)
    (files : Hash -> option (list Attributes.Row * Z))
    (fingerprint : Hash) (s : Z) :
  Cache.db c = Some d ->
  txn (_state d) = Some (mkSQLiteTxn true) ->
  Cache.db (snd (Cache.commit c)) = Some d1 ->
  files fingerprint = Some (durable (db (_state (run_calls calls d1))), s) ->
  exists reopened,
    Cache.db (Cache.new files (Some fingerprint)) = Some reopened /\
    failed reopened = false /\
    forall key, fst (getAttr key reopened) = fst (getAttr key d).
Proof.
  intros Hdb Htxn Hdb1 Hfiles.
  destruct (commit_open_transaction c d Hdb Htxn)
    as (c' & d1' & Hcommit & Hdb' & Hdur & _).
  rewrite Hcommit in Hdb1. simpl in Hdb1. rewrite Hdb' in Hdb1.
  injection Hdb1 as <-.
  destruct (run_calls_steps calls d1') as [[Hsteps _] _].
  rewrite (steps_durable _ _ Hsteps), Hdur in Hfiles.
  unfold Cache.new, Cache.makeAttrDb. rewrite Hfiles. cbn [Cache.db].
  eexists. split; [reflexivity|]. split; [reflexivity|].
  intros key. now apply getAttr_table_only.
Qed.

Lemma X8_new_session_witness :
  let d := snd (setValue (0, "k") missing_t (new_AttrDb empty_SQLite)) in
  exists reopened,
    Cache.db
      (Cache.new (fun _ => Some ([leaf_row 1 (0, "k") missing_t], 1))
         (Some "f")) = Some reopened /\
    failed reopened = false /\
    forall key, fst (getAttr key reopened) = fst (getAttr key d).
Proof.
  intros d.
  pose (c := Cache.mk (Some d) EmptyString).
  let store := eval vm_compute in (Cache.db (snd (Cache.commit c))) in
  match store with
  | Some ?d1 =>
      apply (X8_new_session_reads_as_of_the_last_commit c d d1
               [call_setValue (1, "late") failed_t]
               (fun _ => Some ([leaf_row 1 (0, "k") missing_t], 1))
               "f" 1); reflexivity
  end.
Defined.

(** ** Reads and writes never fail the caller *)

Lemma AttrType_of_Z_in_range z :
  0 <= z <= 6 -> exists t, AttrType_of_Z z = Some t /\ AttrType.to_Z t = z.
Proof.
  intros H.
  assert (z = 0 \/ z = 1 \/ z = 2 \/ z = 3 \/ z = 4 \/ z = 5 \/ z = 6)
    as [->|[->|[->|[->|[->|[->| ->]]]]]] by lia;
    eexists; split; reflexivity.
Qed.

Lemma AttrType_of_Z_out_of_range z :
  ~ 0 <= z <= 6 -> AttrType_of_Z z = None.
Proof.
  intros H. unfold AttrType_of_Z.
  repeat match goal with
         | |- context [?a =? ?b] =>
             destruct (Z.eqb_spec a b); [lia|]
         end.
  reflexivity.
Qed.

Lemma getAttr_returns_on_decodable key d :
  decodable (db (_state d)) ->
  exists r, fst (getAttr key d) = Ret r.
Proof.
  destruct d as [f [[tb sq li du tr] tx]], key as [p n].
  unfold decodable. simpl. intros Hdec.
  unfold getAttr, lock, bind, on_db, queryAttribute_next. simpl.
  destruct (find _ tb) as [row|] eqn:Hfind; [|eauto]. simpl.
  apply find_some in Hfind as [Hin _].
  apply list_elem_of_In in Hin.
  rewrite Forall_forall in Hdec. destruct (Hdec row Hin) as [Hty Hval].
  destruct (AttrType_of_Z_in_range _ Hty) as (t & -> & Ht).
  destruct t; simpl; eauto.
  unfold getStr. destruct (Attributes.value row); simpl; [eauto|].
  simpl in Ht. now destruct (Hval (eq_sym Ht)).
Qed.

(** X9: on a table whose rows all have one of the seven type tags, with a
    value in every [String] row (such are the rows that the store writes,
    so such is every table grown from an empty file), [getAttr] returns,
    for every key and after any sequence of calls: it neither throws nor
    fails an assertion. *)
Theorem X9_getAttr_returns_on_the_rows_the_store_writes
    (calls : list Call) (key : AttrKey) (d : AttrDb) :
  decodable (db (_state d)) ->
  decodable (db (_state (run_calls calls d))) /\
  exists r, fst (getAttr key (run_calls calls d)) = Ret r.
Proof.
  intros Hdec.
  assert (Hdec' : decodable (db (_state (run_calls calls d)))).
  { eapply steps_decodable; [|exact Hdec]. apply (run_calls_steps calls d). }
  split; [exact Hdec'|]. now apply getAttr_returns_on_decodable.
Qed.

Lemma X9_getAttr_returns_witness :
  let d' := run_calls [call_setValue (0, "k") (string_t "s" [("a", "b")]);
                       call_setValue (1, "x") (attrs_v ["a"; "a"])]
              (new_AttrDb empty_SQLite) in
  decodable (db (_state d')) /\
  exists r, fst (getAttr (1, "x") d') = Ret r.
Proof.
  apply (X9_getAttr_returns_on_the_rows_the_store_writes _ (1, "x")
           (new_AttrDb empty_SQLite)).
  constructor.
Defined.

(** X10: a row whose type column is none of the seven tags makes
    [getAttr] throw the error "unexpected type in evaluation cache"; the
    table is left as it is.  [getId] does not look at the type and returns
    the id of the row. *)
Theorem X10_getAttr_throws_on_an_unknown_type_tag
    (key : AttrKey) (d : AttrDb) (row : Attributes.Row) :
  find (same_key (fst key) (snd key)) (tbl d) = Some row ->
  ~ 0 <= cast_AttrType (Attributes.type row) <= 6 ->
  fst (getAttr key d) = Raise (Error "unexpected type in evaluation cache") /\
  tbl (snd (getAttr key d)) = tbl d /\
  fst (getId key d) = Ret (Some (cast_AttrType (Attributes.id row))).
Proof.
  destruct d as [f [[tb sq li du tr] tx]], key as [p n].
  unfold tbl. simpl. intros Hfind Hty.
  split; [|split].
  - unfold getAttr, lock, bind, on_db, queryAttribute_next. simpl.
    rewrite Hfind. simpl. now rewrite (AttrType_of_Z_out_of_range _ Hty).
  - unfold getAttr, lock, bind, on_db, queryAttribute_next. simpl.
    rewrite Hfind. simpl. now rewrite (AttrType_of_Z_out_of_range _ Hty).
  - rewrite getId_eq. unfold tbl. simpl. now rewrite Hfind.
Qed.

Lemma X10_getAttr_throws_witness :
  let d := new_AttrDb
             (mkSQLite [Attributes.mkRow 1 0 "k" 7 None None] 1 0
                [Attributes.mkRow 1 0 "k" 7 None None] []) in
  fst (getAttr (0, "k") d) = Raise (Error "unexpected type in evaluation cache") /\
  tbl (snd (getAttr (0, "k") d)) = tbl d /\
  fst (getId (0, "k") d) = Ret (Some 1).
Proof.
  intros d.
  apply (X10_getAttr_throws_on_an_unknown_type_tag (0, "k") d
           (Attributes.mkRow 1 0 "k" 7 None None)).
  - reflexivity.
  - vm_compute. intros [_ H]. apply H. reflexivity.
Defined.

(** X11: [setPlaceholder], [setMissing], [setMisc] and [setFailed] at a
    key without a row, on a store that has not failed, return the next
    rowid, and [getAttr] on the key then returns that id with the very
    sentinel. *)
Theorem X11_sentinel_writers_round_trip (key : AttrKey) (d : AttrDb) :
  failed d = false ->
  find (same_key (fst key) (snd key)) (tbl d) = None ->
  0 <= seq (db (_state d)) < 2 ^ 32 - 1 ->
  let rowId := seq (db (_state d)) + 1 in
  (fst (setPlaceholder key d) = Ret rowId /\
   fst (getAttr key (snd (setPlaceholder key d)))
     = Ret (Some (rowId, placeholder_t))) /\
  (fst (setMissing key d) = Ret rowId /\
   fst (getAttr key (snd (setMissing key d)))
     = Ret (Some (rowId, missing_t))) /\
  (fst (setMisc key d) = Ret rowId /\
   fst (getAttr key (snd (setMisc key d))) = Ret (Some (rowId, misc_t))) /\
  (fst (setFailed key d) = Ret rowId /\
   fst (getAttr key (snd (setFailed key d))) = Ret (Some (rowId, failed_t))).
Proof.
  intros Hf Hnone Hseq rowId.
  unfold setPlaceholder, setMissing, setMisc, setFailed.
  repeat split;
    match goal with
    | |- context [setLeaf key ?v d] =>
        destruct (setLeaf_then_getAttr key v d Hf eq_refl Hnone Hseq)
          as (d1 & Hrun & _ & _ & Hget); rewrite Hrun; simpl;
        first [reflexivity | exact Hget]
    end.
Qed.

Lemma X11_sentinel_writers_witness :
  let d := new_AttrDb empty_SQLite in
  (fst (setPlaceholder (0, "k") d) = Ret 1 /\
   fst (getAttr (0, "k") (snd (setPlaceholder (0, "k") d)))
     = Ret (Some (1, placeholder_t))) /\
  (fst (setMissing (0, "k") d) = Ret 1 /\
   fst (getAttr (0, "k") (snd (setMissing (0, "k") d)))
     = Ret (Some (1, missing_t))) /\
  (fst (setMisc (0, "k") d) = Ret 1 /\
   fst (getAttr (0, "k") (snd (setMisc (0, "k") d)))
     = Ret (Some (1, misc_t))) /\
  (fst (setFailed (0, "k") d) = Ret 1 /\
   fst (getAttr (0, "k") (snd (setFailed (0, "k") d)))
     = Ret (Some (1, failed_t))).
Proof.
  apply (X11_sentinel_writers_round_trip (0, "k") (new_AttrDb empty_SQLite)).
  - reflexivity.
  - reflexivity.
  - simpl. lia.
Defined.

Lemma setAttrs_returns key attrs d :
  failed d = false ->
  find (same_key (fst key) (snd key)) (tbl d) = None ->
  0 <= seq (db (_state d)) ->
  exists d',
    (setAttrs key attrs d = (Ret (seq (db (_state d)) + 1), d') /\
     failed d' = false) \/
    (setAttrs key attrs d = (Ret 0, d') /\ failed d' = true).
Proof.
  destruct d as [f [[tb sq li du tr] tx]], key as [p n].
  unfold tbl. simpl. intros -> Hnone Hseq.
  unfold setAttrs, doSQLite, bind, on_db. simpl.
  unfold insertAttribute_exec.
  rewrite exec_insert_fresh by exact Hnone. simpl.
  destruct (sq + 1 =? 0) eqn:E; [apply Z.eqb_eq in E; lia|]. simpl.
  match goal with
  | |- context [insert_placeholders ?r ?a ?c] =>
      destruct (insert_placeholders_outcome r a c) as (c' & [H|H]);
      rewrite H
  end; simpl; eexists; [left | right]; split; reflexivity.
Qed.

(** [setValue] returns a row id, which is 0 exactly when the store is
    failed afterwards. *)
Lemma setValue_returns_id (key : AttrKey) (v : AttrValue) (d : AttrDb) :
  0 <= seq (db (_state d)) ->
  exists id d',
    setValue key v d = (Ret id, d') /\
    (id = 0 <-> failed d' = true).
Proof.
  intros Hseq.
  destruct (failed d) eqn:Hf.
  { exists 0, d. rewrite setValue_failed by exact Hf. tauto. }
  destruct (find (same_key (fst key) (snd key)) (tbl d)) as [row|] eqn:Hfind.
  - destruct (setValue_taken key v d row Hf Hfind) as (d' & Hrun & Hf' & _).
    exists 0, d'. tauto.
  - destruct v as [names|s ctx| | | | |b]; cbn [setValue];
      try (rewrite setLeaf_fresh by (assumption || reflexivity);
           eexists; eexists; split; [reflexivity|]; simpl;
           split; [lia | discriminate]).
    destruct (setAttrs_returns key names d Hf Hfind Hseq)
      as (d' & [[Hrun Hf']|[Hrun Hf']]); rewrite Hrun.
    + eexists; eexists; split; [reflexivity|]. rewrite Hf'.
      split; [lia | discriminate].
    + eexists; eexists; split; [reflexivity|]. tauto.
Qed.

(** X12: a write never fails its caller.  On a store whose sequence is not
    negative, [setValue] returns a row id for every key and value, without
    throwing and without failing an assertion, and the id is 0 exactly
    when the store is in the failed state afterwards.  [setLeaf] called
    with an attribute set fails its assertion and leaves the store as it
    is. *)
Theorem X12_setValue_returns_zero_exactly_when_failed
    (key : AttrKey) (v : AttrValue) (d : AttrDb) :
  0 <= seq (db (_state d)) ->
  (exists id d',
     setValue key v d = (Ret id, d') /\
     (id = 0 <-> failed d' = true)) /\
  (forall names, setLeaf key (attrs_v names) d = (AssertFail, d)).
Proof.
  intros Hseq. split; [now apply setValue_returns_id | reflexivity].
Qed.

Lemma X12_setValue_returns_witness :
  (exists id d',
     setValue (0, "k") (attrs_v ["a"; "a"]) (new_AttrDb empty_SQLite)
       = (Ret id, d') /\
     (id = 0 <-> failed d' = true)) /\
  (forall names,
     setLeaf (0, "k") (attrs_v names) (new_AttrDb empty_SQLite)
       = (AssertFail, new_AttrDb empty_SQLite)).
Proof.
  apply (X12_setValue_returns_zero_exactly_when_failed (0, "k")
           (attrs_v ["a"; "a"]) (new_AttrDb empty_SQLite)).
  simpl. lia.
Defined.

(** ** Attribute sets, further *)

(** Reading a key whose row is a [FullAttrs] row: the names are those of
    all the rows under the id of the row. *)
Lemma getAttr_attrs_row key d row :
  find (same_key (fst key) (snd key)) (tbl d) = Some row ->
  AttrType_of_Z (cast_AttrType (Attributes.type row))
    = Some AttrType.FullAttrs ->
  fst (getAttr key d) =
  Ret (Some (cast_AttrType (Attributes.id row),
             attrs_v
               (map Attributes.name
                  (filter (fun r => Attributes.parent r
                                    = cast_AttrType (Attributes.id row))
                     (tbl d))))).
Proof.
  destruct d as [f [[tb sq li du tr] tx]], key as [p n].
  unfold tbl. simpl. intros Hfind Hty.
  unfold getAttr, lock, bind, on_db, queryAttribute_next. simpl.
  rewrite Hfind. simpl. rewrite Hty.
  unfold queryAttributes_all, SymbolTable.create. simpl.
  now rewrite map_id.
Qed.

Lemma insert_placeholders_app rowId l1 l2 c c' :
  insert_placeholders rowId l1 c = (Ret tt, c') ->
  insert_placeholders rowId (l1 ++ l2) c = insert_placeholders rowId l2 c'.
Proof.
  revert c. induction l1 as [|a l1 IH]; intros c Hrun.
  - unfold insert_placeholders, ret in Hrun. injection Hrun as ->.
    reflexivity.
  - cbn [app insert_placeholders] in *. unfold bind in *.
    destruct (insertAttribute_exec _ _ _ _ c) as [[[]|e| |] c1];
      try discriminate Hrun.
    now apply IH.
Qed.

(** The inserts of [setAttrs] up to a duplicate name. *)
Lemma setAttrs_stops_at_duplicate
    (key : AttrKey) (l1 l2 : list Symbol) (a : Symbol) (d : AttrDb) :
  failed d = false ->
  store_ok (db (_state d)) ->
  fst key <= seq (db (_state d)) ->
  find (same_key (fst key) (snd key)) (tbl d) = None ->
  NoDup l1 -> a ∈ l1 ->
  seq (db (_state d)) + 1 < 2 ^ 32 ->
  let rowId := seq (db (_state d)) + 1 in
  exists d1,
    setAttrs key (l1 ++ a :: l2) d = (Ret 0, d1) /\
    failed d1 = true /\
    tbl d1 =
      (tbl d ++ attrs_row rowId key :: placeholder_rows rowId (rowId + 1) l1)%list /\
    durable (db (_state d1)) = durable (db (_state d)) /\
    fst (getAttr key d1) = Ret (Some (rowId, attrs_v l1)).
Proof.
  destruct d as [f [[tb sq li du tr] tx]], key as [p n]. unfold tbl. simpl.
  intros -> Hok Hp Hnone Hnd Ha Hbound.
  pose proof (store_ok_no_child _ Hok) as Hchild. simpl in Hchild.
  destruct Hok as [Hseq _]. simpl in Hseq.
  unfold setAttrs, doSQLite, bind, on_db. simpl.
  unfold insertAttribute_exec.
  rewrite exec_insert_fresh by exact Hnone. simpl.
  destruct (sq + 1 =? 0) eqn:E; [apply Z.eqb_eq in E; lia|]. simpl.
  set (c1 := mkSQLite _ _ _ _ _).
  destruct (insert_placeholders_fresh (sq + 1) l1 c1 Hnd)
    as (c' & Hrun & Htb & Hsq & Hdur).
  { intros b _. subst c1. cbn [table].
    rewrite find_snoc, (find_no_child _ _ _ Hchild).
    destruct (same_key _ _ _) eqn:E'; [|reflexivity].
    apply same_key_true in E'. simpl in E'. lia. }
  rewrite (insert_placeholders_app _ _ _ _ _ Hrun).
  cbn [insert_placeholders]. unfold bind, insertAttribute_exec.
  destruct (find_placeholder_rows (sq + 1) (seq c1 + 1) l1 a Ha)
    as (i & _ & Hfind).
  assert (Hrow : find (same_key (sq + 1) a) (table c')
                 = Some (Attributes.mkRow i (sq + 1) a
                           (AttrType.to_Z AttrType.Placeholder) None None)).
  { rewrite Htb. subst c1. cbn [table seq] in *.
    rewrite find_app_none; [exact Hfind|].
    rewrite find_snoc, (find_no_child _ _ _ Hchild).
    destruct (same_key _ _ _) eqn:E'; [|reflexivity].
    apply same_key_true in E'. simpl in E'. lia. }
  rewrite (exec_insert_taken _ _ _ _ _ _ _ _ Hrow). simpl.
  eexists. split; [reflexivity|]. simpl.
  subst c1. cbn [table seq durable] in *.
  rewrite Htb, Hdur, <- app_assoc. repeat split.
  set (row := attrs_row (sq + 1) (p, n)).
  pose (d1 := mkAttrDb true
                (mkState
                   (mkSQLite
                      (tb ++ [row] ++ placeholder_rows (sq + 1) (sq + 1 + 1) l1)
                      0 0 [] []) None)).
  transitivity (fst (getAttr (p, n) d1)).
  { apply getAttr_table_only. unfold d1, tbl, row. simpl.
    now rewrite Htb, <- app_assoc. }
  rewrite (getAttr_attrs_row (p, n) d1 row).
  - unfold d1, tbl, row. simpl.
    rewrite cast_AttrType_small by lia.
    rewrite filter_app, (filter_no_child _ _ Hchild).
    rewrite filter_cons_False by (simpl; lia).
    simpl. now rewrite filter_placeholder_rows.
  - unfold d1, tbl. simpl. rewrite find_app_none by exact Hnone.
    cbn [find]. unfold row.
    replace (same_key p n (attrs_row (sq + 1) (p, n))) with true;
      [reflexivity|].
    symmetry. apply same_key_true. split; reflexivity.
  - reflexivity.
Qed.

(** X13: the inserts of [setAttrs] are not undone when one of them fails.
    When the names hold a duplicate, on a store that has not failed and
    for a key without a row, [setAttrs] returns 0 and the store fails,
    but the [FullAttrs] row and the placeholder rows of the names before
    the duplicate stay in the table: the key then reads as [FullAttrs]
    with these names. *)
Theorem X13_setAttrs_keeps_the_rows_before_a_duplicate
    (key : AttrKey) (l1 l2 : list Symbol) (a : Symbol) (d : AttrDb) :
  failed d = false ->
  store_ok (db (_state d)) ->
  fst key <= seq (db (_state d)) ->
  find (same_key (fst key) (snd key)) (tbl d) = None ->
  NoDup l1 -> a ∈ l1 ->
  seq (db (_state d)) + 1 < 2 ^ 32 ->
  let rowId := seq (db (_state d)) + 1 in
  exists d1 names',
    setAttrs key (l1 ++ a :: l2) d = (Ret 0, d1) /\
    failed d1 = true /\
    tbl d1 =
      (tbl d ++ attrs_row rowId key :: placeholder_rows rowId (rowId + 1) l1)%list /\
    durable (db (_state d1)) = durable (db (_state d)) /\
    fst (getAttr key d1) = Ret (Some (rowId, attrs_v names')) /\
    names' ≡ₚ l1.
Proof.
  intros Hf Hok Hp Hnone Hnd Ha Hbound rowId.
  destruct (setAttrs_stops_at_duplicate key l1 l2 a d Hf Hok Hp Hnone Hnd Ha
              Hbound) as (d1 & H1 & H2 & H3 & H4 & H5).
  exists d1, l1. repeat split; assumption || reflexivity.
Qed.

Lemma X13_setAttrs_duplicate_witness :
  exists d1 names',
    setAttrs (0, "k") (["a"; "b"] ++ "a" :: ["c"]) (new_AttrDb empty_SQLite)
      = (Ret 0, d1) /\
    failed d1 = true /\
    tbl d1 =
      [attrs_row 1 (0, "k");
       Attributes.mkRow 2 1 "a" 0 None None;
       Attributes.mkRow 3 1 "b" 0 None None] /\
    durable (db (_state d1)) = [] /\
    fst (getAttr (0, "k") d1) = Ret (Some (1, attrs_v names')) /\
    names' ≡ₚ ["a"; "b"].
Proof.
  apply (X13_setAttrs_keeps_the_rows_before_a_duplicate (0, "k")
           ["a"; "b"] ["c"] "a" (new_AttrDb empty_SQLite)).
  - reflexivity.
  - split; [simpl; lia | constructor].
  - simpl. lia.
  - reflexivity.
  - apply (bool_decide_unpack _). vm_compute. exact I.
  - apply (bool_decide_unpack _). vm_compute. exact I.
  - simpl. lia.
Defined.

(** X14: the names of an attribute set are not fixed when it is declared.
    [getAttr] lists the rows under the id of the [FullAttrs] row as they
    are when it reads: after a leaf is written under that id at a name
    that had no row, the key reads as [FullAttrs] with the names it had
    and this name. *)
Theorem X14_a_later_child_joins_the_names_of_its_parent
    (key : AttrKey) (row : Attributes.Row) (b : Symbol) (v : AttrValue)
    (d : AttrDb) :
  find (same_key (fst key) (snd key)) (tbl d) = Some row ->
  AttrType_of_Z (cast_AttrType (Attributes.type row))
    = Some AttrType.FullAttrs ->
  let i := cast_AttrType (Attributes.id row) in
  failed d = false ->
  holds_attrs v = false ->
  find (same_key i b) (tbl d) = None ->
  0 <= seq (db (_state d)) ->
  exists names names' d',
    fst (getAttr key d) = Ret (Some (i, attrs_v names)) /\
    setLeaf (i, b) v d = (Ret (seq (db (_state d)) + 1), d') /\
    fst (getAttr key d') = Ret (Some (i, attrs_v names')) /\
    names' ≡ₚ b :: names.
Proof.
  intros Hrow Hty i Hf Hv Hnone Hseq.
  eexists. eexists. eexists.
  split; [apply (getAttr_attrs_row key d row Hrow Hty)|].
  split; [apply (setLeaf_fresh (i, b) v d Hf Hv Hnone Hseq)|].
  set (d' := mkAttrDb _ _).
  assert (Hrow' : find (same_key (fst key) (snd key)) (tbl d') = Some row)
    by (unfold d', tbl; simpl; now apply find_app_some).
  split; [apply (getAttr_attrs_row key d' row Hrow' Hty)|].
  unfold d', tbl. cbn [_state db table]. fold (tbl d). fold i.
  rewrite filter_app, map_app.
  rewrite filter_cons_True by reflexivity.
  rewrite filter_nil. cbn [map leaf_row Attributes.name snd].
  symmetry. apply Permutation_cons_append.
Qed.

Lemma X14_a_later_child_witness :
  let d := snd (setAttrs (0, "k") ["a"] (new_AttrDb empty_SQLite)) in
  exists names names' d',
    fst (getAttr (0, "k") d) = Ret (Some (1, attrs_v names)) /\
    setLeaf (1, "b") missing_t d = (Ret 3, d') /\
    fst (getAttr (0, "k") d') = Ret (Some (1, attrs_v names')) /\
    names' ≡ₚ "b" :: names.
Proof.
  intros d.
  apply (X14_a_later_child_joins_the_names_of_its_parent (0, "k")
           (attrs_row 1 (0, "k")) "b" missing_t d);
    try reflexivity.
  simpl. lia.
Defined.

(** ** Cursors, further *)

(** X15: a child cursor computes its key from the row id that its parent
    holds at the time of the call.  Its key is (id of the parent's memo,
    edge name); and once [setValue] on the parent has put a new id in the
    parent's memo (0 when the write failed), the key of the child, which
    shares the parent object, is (the new id, edge name). *)
Theorem X15_child_key_follows_the_memo_of_its_parent
    (w : Cursor.World) (p c : CursorRef) (po o : Cursor.t) (name : Symbol)
    (v : AttrValue) (d : AttrDb) (pkey : AttrKey) :
  Cursor.heap w !! p = Some po ->
  Cursor.heap w !! c = Some o ->
  Cursor.parent o = Some (p, name) ->
  c <> p ->
  Cache.db (Cursor.root w) = Some d ->
  0 <= seq (db (_state d)) ->
  fst (Cursor.getKey p w) = Ret pkey ->
  Cursor.getKey c w = (Ret (fst (Cursor.cachedValue po), name), w) /\
  exists w' id' d',
    Cursor.setValue p v w = (Ret tt, w') /\
    setValue pkey v d = (Ret id', d') /\
    Cursor.heap w' !! p = Some (Cursor.mk (Cursor.parent po) (id', v)) /\
    Cursor.getKey c w' = (Ret (id', name), w').
Proof.
  intros Hp Hc Hpar Hne Hdb Hseq Hkey.
  split.
  { unfold Cursor.getKey, bind, Cursor.deref. rewrite Hc.
    unfold Cursor.getKey_of. rewrite Hpar. unfold bind, Cursor.deref.
    now rewrite Hp. }
  destruct (setValue_returns_id pkey v d Hseq) as (id' & d' & Hrun & _).
  pose proof (getKey_state p w) as Hst.
  destruct (Cursor.getKey p w) as [r w0] eqn:Hk. simpl in Hkey, Hst.
  subst r w0.
  eexists. exists id', d'.
  unfold Cursor.setValue, bind. rewrite Hk.
  unfold Cursor.on_store. rewrite Hdb, Hrun.
  unfold Cursor.deref. cbn [Cursor.heap]. rewrite Hp.
  unfold modify. cbn [Cursor.heap Cursor.root].
  split; [reflexivity|]. split; [reflexivity|].
  assert (Hp' : <[p:=Cursor.mk (Cursor.parent po) (id', v)]> (Cursor.heap w)
                  !! p = Some (Cursor.mk (Cursor.parent po) (id', v))).
  { apply list_lookup_insert_eq. now apply lookup_lt_Some in Hp. }
  split; [exact Hp'|].
  unfold Cursor.getKey, bind, Cursor.deref. cbn [Cursor.heap].
  rewrite list_lookup_insert_ne by congruence. rewrite Hc.
  unfold Cursor.getKey_of. rewrite Hpar. unfold bind, Cursor.deref.
  cbn [Cursor.heap]. rewrite Hp'. reflexivity.
Qed.

Lemma X15_child_key_witness :
  Cursor.getKey 1%nat world_with_placeholder
    = (Ret (1, "a"), world_with_placeholder) /\
  exists w' id' d',
    Cursor.setValue 0%nat missing_t world_with_placeholder = (Ret tt, w') /\
    id' = 0 /\
    failed d' = true /\
    Cursor.heap w' !! 0%nat = Some (Cursor.mk None (id', missing_t)) /\
    Cursor.getKey 1%nat w' = (Ret (id', "a"), w').
Proof.
  let store := eval vm_compute in
    (Cache.db (Cursor.root world_with_placeholder)) in
  match store with
  | Some ?d =>
      destruct (X15_child_key_follows_the_memo_of_its_parent
                  world_with_placeholder 0%nat 1%nat
                  (Cursor.mk None (1, attrs_v []))
                  (Cursor.mk (Some (0%nat, "a")) (2, placeholder_t))
                  "a" missing_t d (0, EmptyString)
                  eq_refl eq_refl eq_refl)
        as (H1 & w' & id' & d' & H2 & H3 & H4 & H5);
        [discriminate | reflexivity | simpl; lia | reflexivity |];
      split; [exact H1|];
      exists w', id', d';
      vm_compute in H3; injection H3 as <- <-;
      repeat split; assumption
  end.
Defined.

(** Declaring a plain value at a key without a row through [setIfAbsent],
    and reading it back. *)
Lemma setIfAbsent_then_getAttr key v d :
  failed d = false ->
  store_ok (db (_state d)) ->
  fst key <= seq (db (_state d)) ->
  find (same_key (fst key) (snd key)) (tbl d) = None ->
  plain_value v ->
  seq (db (_state d)) + rows_of v < 2 ^ 32 ->
  let rowId := seq (db (_state d)) + 1 in
  exists d1 row v',
    setIfAbsent key v d = (Ret rowId, d1) /\
    failed d1 = false /\
    find (same_key (fst key) (snd key)) (tbl d1) = Some row /\
    Attributes.id row = rowId /\
    tbl d `prefix_of` tbl d1 /\
    fst (getAttr key d1) = Ret (Some (rowId, v')) /\
    same_value v' v.
Proof.
  intros Hf Hok Hp Hnone Hplain Hbound rowId.
  set (d0 := mkAttrDb (failed d)
               (mkState (log (queryAttribute (fst key) (snd key))
                           (db (_state d))) (txn (_state d)))).
  destruct (setValue_then_getAttr key v d0 Hf Hok Hp Hnone Hplain Hbound)
    as (d1 & row & v' & Hrun & Hf1 & Hfind & Hid & Hget & Hsame).
  exists d1, row, v'.
  split.
  { unfold setIfAbsent, bind. rewrite getId_eq, Hnone. exact Hrun. }
  repeat (split; [assumption|]). split; [|split; assumption].
  change (tbl d) with (tbl d0).
  pose proof (setValue_steps key v d0) as [[Hsteps _] _].
  rewrite Hrun in Hsteps. now apply steps_prefix.
Qed.

(** X16: a child declared with [addChild] is found by [maybeGetAttr].  On
    a store that has not failed, for a name without a row under the
    cursor's row and a plain value, [addChild] returns a cursor whose memo
    is (the new row id, the value); [maybeGetAttr] on the same name then
    returns another, new cursor, with the same parent relation, the same
    row id and the same value. *)
Theorem X16_addChild_then_maybeGetAttr_finds_the_child
    (w : Cursor.World) (c : CursorRef) (o : Cursor.t) (d : AttrDb)
    (name : Symbol) (v : AttrValue) :
  Cursor.heap w !! c = Some o ->
  Cache.db (Cursor.root w) = Some d ->
  failed d = false ->
  store_ok (db (_state d)) ->
  fst (Cursor.cachedValue o) <= seq (db (_state d)) ->
  find (same_key (fst (Cursor.cachedValue o)) name) (tbl d) = None ->
  plain_value v ->
  seq (db (_state d)) + rows_of v < 2 ^ 32 ->
  let rowId := seq (db (_state d)) + 1 in
  exists child w1 found w2 v',
    Cursor.addChild c name v w = (Ret child, w1) /\
    Cursor.heap w1 !! child = Some (Cursor.mk (Some (c, name)) (rowId, v)) /\
    Cursor.maybeGetAttr c name w1 = (Ret (Some found), w2) /\
    found <> child /\
    Cursor.heap w2 !! found = Some (Cursor.mk (Some (c, name)) (rowId, v')) /\
    same_value v' v.
Proof.
  intros Hc Hdb Hf Hok Hp Hnone Hplain Hbound rowId.
  destruct (setIfAbsent_then_getAttr (fst (Cursor.cachedValue o), name) v d
              Hf Hok Hp Hnone Hplain Hbound)
    as (d1 & row & v' & Hrun & _ & _ & _ & _ & Hget & Hsame).
  destruct (getAttr (fst (Cursor.cachedValue o), name) d1) as [r d2] eqn:Hread.
  simpl in Hget. subst r.
  exists (length (Cursor.heap w)). eexists.
  exists (S (length (Cursor.heap w))). eexists. exists v'.
  assert (Hadd : Cursor.addChild c name v w =
                 (Ret (length (Cursor.heap w)),
                  Cursor.mkWorld
                    (Cache.mk (Some d1) (Cache.rootSymbol (Cursor.root w)))
                    (Cursor.heap w ++ [Cursor.mk (Some (c, name)) (rowId, v)]))).
  { unfold Cursor.addChild, Cursor.declare, bind, Cursor.getKey_of.
    unfold bind, Cursor.deref. rewrite Hc. unfold ret.
    unfold Cursor.on_store. rewrite Hdb, Hrun. reflexivity. }
  split; [exact Hadd|]. split.
  { cbn [Cursor.heap]. rewrite lookup_app_r by lia.
    now rewrite Nat.sub_diag. }
  split; [|split; [lia|split; [|exact Hsame]]].
  - unfold Cursor.maybeGetAttr, bind, Cursor.deref. cbn [Cursor.heap].
    rewrite lookup_app_l by (now apply lookup_lt_Some in Hc). rewrite Hc.
    unfold Cursor.on_store. cbn [Cursor.root Cache.db]. rewrite Hread.
    unfold Cursor.rehydrate, Cursor.make_shared, ret.
    cbn [Cursor.heap Cursor.root]. rewrite length_app. cbn [length].
    rewrite Nat.add_1_r. reflexivity.
  - cbn [Cursor.heap]. rewrite lookup_app_r by (rewrite length_app; simpl; lia).
    rewrite length_app. cbn [length].
    replace (S (length (Cursor.heap w)) - (length (Cursor.heap w) + 1))%nat
      with 0%nat by lia.
    reflexivity.
Qed.

Lemma X16_addChild_then_maybeGetAttr_witness :
  exists child w1 found w2 v',
    Cursor.addChild 1%nat "x" failed_t world_with_placeholder
      = (Ret child, w1) /\
    Cursor.heap w1 !! child = Some (Cursor.mk (Some (1%nat, "x")) (3, failed_t)) /\
    Cursor.maybeGetAttr 1%nat "x" w1 = (Ret (Some found), w2) /\
    found <> child /\
    Cursor.heap w2 !! found = Some (Cursor.mk (Some (1%nat, "x")) (3, v')) /\
    same_value v' failed_t.
Proof.
  let store := eval vm_compute in
    (Cache.db (Cursor.root world_with_placeholder)) in
  match store with
  | Some ?d =>
      apply (X16_addChild_then_maybeGetAttr_finds_the_child
               world_with_placeholder 1%nat
               (Cursor.mk (Some (0%nat, "a")) (2, placeholder_t)) d
               "x" failed_t);
        first [ reflexivity
              | exact I
              | simpl; lia
              | split; [simpl; lia|]; repeat constructor; simpl; lia ]
  end.
Defined.

(** X17: walking a path made of two parts is walking the first part and
    then, from the cursor it reaches, the second; when the first part is
    absent the whole walk is absent, in the state the first walk left. *)
Theorem X17_findAlongAttrPath_of_a_concatenated_path
    (c : CursorRef) (path1 path2 : list Symbol) (w : Cursor.World) :
  Cursor.findAlongAttrPath c (path1 ++ path2) w =
  match Cursor.findAlongAttrPath c path1 w with
  | (Ret (Some c1), w1) => Cursor.findAlongAttrPath c1 path2 w1
  | (Ret None, w1) => (Ret None, w1)
  | (Raise e, w1) => (Raise e, w1)
  | (AssertFail, w1) => (AssertFail, w1)
  | (NullDeref, w1) => (NullDeref, w1)
  end.
Proof.
  unfold Cursor.findAlongAttrPath. revert c w.
  induction path1 as [|x path1 IH]; intros c w; [reflexivity|].
  cbn [app Cursor.findAlongAttrPath_from]. unfold bind.
  destruct (Cursor.maybeGetAttr c x w) as [[[c1|]|e| |] w1];
    try reflexivity.
  apply IH.
Qed.

(** X18: [getRoot] stores the root as a row.  On a store that has not
    failed and has no row of the root key (0, root symbol), [getRoot]
    inserts one [FullAttrs] row for that key, without children, and
    returns a cursor whose memo is (the new row id, the empty attribute
    set).  A second [getRoot] returns another cursor with the same memo
    and leaves the table as it is. *)
Theorem X18_getRoot_inserts_the_root_row_once
    (w : Cursor.World) (d : AttrDb) :
  Cache.db (Cursor.root w) = Some d ->
  failed d = false ->
  store_ok (db (_state d)) ->
  find (same_key 0 (Cache.rootSymbol (Cursor.root w))) (tbl d) = None ->
  seq (db (_state d)) + 1 < 2 ^ 32 ->
  let rowId := seq (db (_state d)) + 1 in
  exists r1 w1 d1 r2 w2 d2,
    getRoot w = (Ret r1, w1) /\
    Cursor.heap w1 !! r1 = Some (Cursor.mk None (rowId, attrs_v [])) /\
    Cache.db (Cursor.root w1) = Some d1 /\
    tbl d1 =
      (tbl d ++ [attrs_row rowId (0, Cache.rootSymbol (Cursor.root w))])%list /\
    getRoot w1 = (Ret r2, w2) /\
    r2 <> r1 /\
    Cursor.heap w2 !! r2 = Some (Cursor.mk None (rowId, attrs_v [])) /\
    Cache.db (Cursor.root w2) = Some d2 /\
    tbl d2 = tbl d1.
Proof.
  intros Hdb Hf Hok Hnone Hbound rowId.
  assert (Hseq : 0 <= seq (db (_state d))) by apply Hok.
  set (sym := Cache.rootSymbol (Cursor.root w)) in *.
  set (d0 := mkAttrDb (failed d)
               (mkState (log (queryAttribute 0 sym) (db (_state d)))
                  (txn (_state d)))).
  destruct (setAttrs_fresh (0, sym) [] d0 Hf Hok Hseq Hnone (NoDup_nil_2))
    as (d1 & Hrun & Hf1 & Htb & _).
  change (tbl d0) with (tbl d) in Htb.
  change (seq (db (_state d0)) + 1) with rowId in Hrun, Htb.
  cbn [placeholder_rows] in Htb.
  assert (Hfind : find (same_key 0 sym) (tbl d1) = Some (attrs_row rowId (0, sym))).
  { rewrite Htb. apply find_after_insert; [exact Hnone|].
    apply same_key_true. split; reflexivity. }
  assert (H1 : setIfAbsent (0, sym) (attrs_v []) d = (Ret rowId, d1)).
  { unfold setIfAbsent, bind. rewrite getId_eq. cbn [fst snd].
    rewrite Hnone. exact Hrun. }
  set (d2 := mkAttrDb (failed d1)
               (mkState (log (queryAttribute 0 sym) (db (_state d1)))
                  (txn (_state d1)))).
  assert (H2 : setIfAbsent (0, sym) (attrs_v []) d1 = (Ret rowId, d2)).
  { unfold setIfAbsent, bind. rewrite getId_eq. cbn [fst snd].
    rewrite Hfind. simpl. unfold rowId.
    rewrite cast_AttrType_small by lia. reflexivity. }
  exists (length (Cursor.heap w)). eexists. exists d1.
  exists (S (length (Cursor.heap w))). eexists. exists d2.
  assert (Hroot1 : getRoot w =
                   (Ret (length (Cursor.heap w)),
                    Cursor.mkWorld (Cache.mk (Some d1) sym)
                      (Cursor.heap w ++ [Cursor.mk None (rowId, attrs_v [])]))).
  { unfold getRoot, Cursor.declare, bind, Cursor.getKey_of, bind, gets, ret.
    cbn. unfold Cursor.on_store. fold sym. rewrite Hdb, H1. reflexivity. }
  split; [exact Hroot1|]. split.
  { cbn [Cursor.heap]. rewrite lookup_app_r by lia. now rewrite Nat.sub_diag. }
  split; [reflexivity|]. split; [exact Htb|]. split.
  { unfold getRoot, Cursor.declare, bind, Cursor.getKey_of, bind, gets, ret.
    cbn. rewrite H2. unfold Cursor.make_shared. cbn.
    rewrite length_app. cbn [length]. rewrite Nat.add_1_r. reflexivity. }
  split; [lia|]. split; [|split; reflexivity].
  cbn [Cursor.heap]. rewrite lookup_app_r by (rewrite length_app; simpl; lia).
  rewrite length_app. cbn [length].
  replace (S (length (Cursor.heap w)) - (length (Cursor.heap w) + 1))%nat
    with 0%nat by lia.
  reflexivity.
Qed.

Lemma X18_getRoot_witness :
  exists r1 w1 d1 r2 w2 d2,
    getRoot new_world = (Ret r1, w1) /\
    Cursor.heap w1 !! r1 = Some (Cursor.mk None (1, attrs_v [])) /\
    Cache.db (Cursor.root w1) = Some d1 /\
    tbl d1 = [attrs_row 1 (0, EmptyString)] /\
    getRoot w1 = (Ret r2, w2) /\
    r2 <> r1 /\
    Cursor.heap w2 !! r2 = Some (Cursor.mk None (1, attrs_v [])) /\
    Cache.db (Cursor.root w2) = Some d2 /\
    tbl d2 = tbl d1.
Proof.
  apply (X18_getRoot_inserts_the_root_row_once new_world
           (new_AttrDb empty_SQLite));
    first [ reflexivity
          | simpl; lia
          | split; [simpl; lia | constructor] ].
Defined.

(** ** Reads *)

Lemma getAttr_reads_only key d :
  tbl (snd (getAttr key d)) = tbl d /\
  failed (snd (getAttr key d)) = failed d /\
  durable (db (_state (snd (getAttr key d)))) = durable (db (_state d)).
Proof.
  destruct d as [f [[tb sq li du tr] tx]], key as [p n]. unfold tbl.
  unfold getAttr, lock, bind, on_db, queryAttribute_next. simpl.
  unfold getStr, queryAttributes_all.
  destruct (find _ tb) as [row|]; simpl; [|repeat split].
  destruct (AttrType_of_Z _) as [[]|], (Attributes.value row);
    simpl; repeat split.
Qed.

Lemma maybeGetAttr_reads_only c name w :
  store_rows (snd (Cursor.maybeGetAttr c name w)) = store_rows w /\
  Cursor.heap w `prefix_of` Cursor.heap (snd (Cursor.maybeGetAttr c name w)).
Proof.
  unfold Cursor.maybeGetAttr, bind, Cursor.deref.
  destruct (Cursor.heap w !! c) as [o|]; [|split; reflexivity].
  unfold Cursor.on_store, store_rows.
  destruct (Cache.db (Cursor.root w)) as [d|] eqn:Hdb;
    [|simpl; rewrite Hdb; split; reflexivity].
  destruct (getAttr_reads_only (fst (Cursor.cachedValue o), name) d)
    as (Htb & Hf & Hdur).
  destruct (getAttr _ d) as [[[[i v]|]|e| |] d']; simpl in *;
    rewrite ?Htb, ?Hf, ?Hdur; split; try reflexivity.
  now apply prefix_app_r.
Qed.

(** X19: navigation never writes.  Whatever [findAlongAttrPath] (or
    [maybeGetAttr], its one-name case) returns or throws, the table, the
    failed flag and the durable rows of the store are left as they were,
    and the cursors that existed are untouched: the walk only adds the
    cursors it makes. *)
Theorem X19_navigation_never_writes
    (c : CursorRef) (path : list Symbol) (w : Cursor.World) :
  let w' := snd (Cursor.findAlongAttrPath c path w) in
  store_rows w' = store_rows w /\
  Cursor.heap w `prefix_of` Cursor.heap w'.
Proof.
  unfold Cursor.findAlongAttrPath. revert c w.
  induction path as [|x path IH]; intros c w; [split; reflexivity|].
  cbn [Cursor.findAlongAttrPath_from]. unfold bind.
  destruct (maybeGetAttr_reads_only c x w) as [Hrows Hheap].
  destruct (Cursor.maybeGetAttr c x w) as [[[c1|]|e| |] w1];
    simpl in *; try (split; assumption).
  destruct (IH c1 w1) as [Hrows' Hheap'].
  split; [now rewrite Hrows'|]. now transitivity (Cursor.heap w1).
Qed.

(** X20: [getId] and [getAttr] agree on which keys have a row.  One
    returns absent exactly when the other does, and when [getAttr]
    returns a row id with a value, [getId] returns that row id. *)
Theorem X20_getId_agrees_with_getAttr (key : AttrKey) (d : AttrDb) :
  (fst (getId key d) = Ret None <-> fst (getAttr key d) = Ret None) /\
  (forall i v,
     fst (getAttr key d) = Ret (Some (i, v)) ->
     fst (getId key d) = Ret (Some i)).
Proof.
  destruct d as [f [[tb sq li du tr] tx]], key as [p n].
  unfold getId, getAttr, lock, bind, on_db, queryAttribute_next. simpl.
  destruct (find _ tb) as [row|]; simpl.
  - split.
    + split; [discriminate|].
      destruct (AttrType_of_Z _) as [[]|]; simpl; try discriminate.
      unfold getStr. destruct (Attributes.value row); discriminate.
    + intros i v.
      destruct (AttrType_of_Z _) as [[]|]; simpl; try discriminate;
        try (intros [= <- _]; reflexivity).
      unfold getStr. destruct (Attributes.value row); simpl;
        [intros [= <- _]; reflexivity | discriminate].
  - split; [tauto | discriminate].
Qed.

Lemma X20_getId_agrees_with_getAttr_witness :
  let d := snd (setValue (0, "k") missing_t (new_AttrDb empty_SQLite)) in
  (fst (getId (1, "a") d) = Ret None <-> fst (getAttr (1, "a") d) = Ret None) /\
  fst (getId (0, "k") d) = Ret (Some 1).
Proof.
  intros d. split.
  - apply (X20_getId_agrees_with_getAttr (1, "a") d).
  - apply (proj2 (X20_getId_agrees_with_getAttr (0, "k") d) 1 missing_t).
    reflexivity.
Defined.
